(** * Contact form validation and theme preference: a shallow embedding

    The development follows two components of the site:
    - [src/components/Contact.tsx]: per-field validation, the touched /
      error maps and the submission status machine;
    - [src/components/ThemeToggle.tsx]: the persisted theme preference and
      its reconciliation with the system colour scheme.

    JavaScript strings are sequences of UTF-16 code units; objects used as
    dictionaries are finite maps keyed by such strings. *)

From Stdlib Require Import String Ascii NArith List Bool Lia.
From stdpp Require Import base option list gmap.
Import ListNotations.

Local Open Scope N_scope.

(** ** JavaScript strings *)

Module JS.

(** A string value: its UTF-16 code units. *)
Abbreviation code_unit := N (only parsing).
Abbreviation jsstring := (list N).

(** A source literal (ASCII only in these components). *)
Fixpoint str (s : string) : jsstring :=
  match s with
  | EmptyString => []
  | String a rest => N_of_ascii a :: str rest
  end.

(** [WhiteSpace] and [LineTerminator] of ECMAScript: what
    [String.prototype.trim] strips and what [\s] matches. *)
Definition is_space (c : code_unit) : bool :=
  ((9 <=? c) && (c <=? 13))            (* TAB LF VT FF CR *)
  || (c =? 32)                         (* SP *)
  || (c =? 160)                        (* NBSP *)
  || (c =? 5760)                       (* U+1680 *)
  || ((8192 <=? c) && (c <=? 8202))    (* U+2000 .. U+200A *)
  || (c =? 8232) || (c =? 8233)        (* LS PS *)
  || (c =? 8239) || (c =? 8287)        (* U+202F U+205F *)
  || (c =? 12288)                      (* U+3000 *)
  || (c =? 65279).                     (* U+FEFF *)

Fixpoint trimStart (s : jsstring) : jsstring :=
  match s with
  | [] => []
  | c :: rest => if is_space c then trimStart rest else s
  end.

Definition trimEnd (s : jsstring) : jsstring := rev (trimStart (rev s)).

(** [String.prototype.trim] *)
Definition trim (s : jsstring) : jsstring := trimEnd (trimStart s).

(** [ToBoolean] on a string: only the empty string is falsy. *)
Definition truthy (s : jsstring) : bool :=
  match s with [] => false | _ :: _ => true end.

(** [ToBoolean] on [string | undefined]. *)
Definition truthy_opt (v : option jsstring) : bool :=
  match v with Some s => truthy s | None => false end.

(** The [length] property: the number of code units. *)
Definition jslength (s : jsstring) : N := N.of_nat (List.length s).

End JS.

Import JS.

(** ** Regular expressions

    The fragment used by [emailRegex]: an anchored sequence of items, each
    a single-character atom, possibly under a greedy [+]. *)

Module RegExp.

Inductive atom :=
| Char (c : code_unit)                 (* a literal character, e.g. [@] or [\.] *)
| NotSpaceNor (c : code_unit).         (* the class [[^\s c]] *)

Inductive item :=
| One (a : atom)
| Plus (a : atom).

Definition accepts (a : atom) (c : code_unit) : bool :=
  match a with
  | Char d => c =? d
  | NotSpaceNor d => negb (is_space c) && negb (c =? d)
  end.

(** Backtracking match of [^ items $] from the start of [s]: a [+] first
    tries to take one more character, then falls back to the rest of the
    pattern. *)
Fixpoint exec (p : list item) (s : jsstring) {struct s} : bool :=
  match p, s with
  | [], [] => true
  | [], _ :: _ => false
  | _ :: _, [] => false
  | One a :: rest, c :: s' => accepts a c && exec rest s'
  | Plus a :: rest, c :: s' =>
      accepts a c && (exec (Plus a :: rest) s' || exec rest s')
  end.

(** [RegExp.prototype.test] for an anchored pattern without flags. *)
Definition test (p : list item) (s : jsstring) : bool := exec p s.

End RegExp.

(** ** Contact.tsx: field validation *)

Module Contact.

Definition AT : code_unit := 64.
Definition DOT : code_unit := 46.

(** [/^[^\s@]+@[^\s@]+\.[^\s@]+$/] *)
Definition emailRegex : list RegExp.item :=
  [ RegExp.Plus (RegExp.NotSpaceNor AT); RegExp.One (RegExp.Char AT);
    RegExp.Plus (RegExp.NotSpaceNor AT); RegExp.One (RegExp.Char DOT);
    RegExp.Plus (RegExp.NotSpaceNor AT) ].

Definition isValidEmail (email : jsstring) : bool :=
  RegExp.test emailRegex email.

(** The [switch] compares with strict equality, that is code unit by code
    unit. *)
Definition validateField (name value : jsstring) : option jsstring :=
  if decide (name = str "name") then
    if negb (truthy (trim value)) then Some (str "Name is required")
    else if jslength (trim value) <? 2
         then Some (str "Name must be at least 2 characters")
         else None
  else if decide (name = str "email") then
    if negb (truthy (trim value)) then Some (str "Email is required")
    else if negb (isValidEmail value)
         then Some (str "Please enter a valid email address")
         else None
  else if decide (name = str "message") then
    if negb (truthy (trim value)) then Some (str "Message is required")
    else if jslength (trim value) <? 10
         then Some (str "Message must be at least 10 characters")
         else None
  else None.

(** ** Contact.tsx: component state *)

Inductive FormStatus := idle | submitting | success | error.

Global Instance FormStatus_eq_dec : EqDecision FormStatus.
Proof. solve_decision. Defined.

Record FormData := mkFormData {
  name : jsstring;
  email : jsstring;
  message : jsstring
}.

(** The three controls the component renders; each carries its [name]
    attribute, which is what the handlers read from [e.target]. *)
Inductive field := name_input | email_input | message_input.

Definition target_name (f : field) : jsstring :=
  match f with
  | name_input => str "name"
  | email_input => str "email"
  | message_input => str "message"
  end.

(** The control that carries a given [name] attribute, if any. *)
Definition field_named (key : jsstring) : option field :=
  if decide (key = str "name") then Some name_input
  else if decide (key = str "email") then Some email_input
  else if decide (key = str "message") then Some message_input
  else None.

(** [formData[key]] and [{...prev, [key]: value}] for the keys of the
    interface. *)
Definition FormData_get (fd : FormData) (f : field) : jsstring :=
  match f with
  | name_input => name fd
  | email_input => email fd
  | message_input => message fd
  end.

Definition FormData_set (fd : FormData) (f : field) (v : jsstring) : FormData :=
  match f with
  | name_input => mkFormData v (email fd) (message fd)
  | email_input => mkFormData (name fd) v (message fd)
  | message_input => mkFormData (name fd) (email fd) v
  end.

(** [Object.keys(formData)], in insertion order. *)
Definition FormData_keys : list field := [name_input; email_input; message_input].

Definition emptyForm : FormData := mkFormData (str "") (str "") (str "").

(** [FormErrors]: a key may be absent, or present with the value
    [undefined] (what [handleBlur] stores for a valid field). *)
Abbreviation FormErrors := (gmap (list N) (option (list N))).

(** [Record<string, boolean>] *)
Abbreviation Touched := (gmap (list N) bool).

Record State := mkState {
  formData : FormData;
  errors : FormErrors;
  touched : Touched;
  status : FormStatus
}.

Definition initialState : State := mkState emptyForm ∅ ∅ idle.

Definition setFormData (fd : FormData) (s : State) : State :=
  mkState fd (errors s) (touched s) (status s).
Definition setErrors (e : FormErrors) (s : State) : State :=
  mkState (formData s) e (touched s) (status s).
Definition setTouched (t : Touched) (s : State) : State :=
  mkState (formData s) (errors s) t (status s).
Definition setStatus (st : FormStatus) (s : State) : State :=
  mkState (formData s) (errors s) (touched s) st.

(** One iteration of the [forEach] in [validateForm]. *)
Definition validateForm_visit (fd : FormData) (newErrors : FormErrors) (key : field)
  : FormErrors :=
  let error := validateField (target_name key) (FormData_get fd key) in
  if truthy_opt error then <[target_name key := error]> newErrors else newErrors.

(** [validateForm]: the new state (after [setErrors]) and the returned
    boolean. *)
Definition validateForm (s : State) : State * bool :=
  let newErrors := foldl (validateForm_visit (formData s)) ∅ FormData_keys in
  (setErrors newErrors s, bool_decide (size newErrors = 0%nat)).

(** [touched[name]] read as a condition. *)
Definition isTouched (t : Touched) (key : jsstring) : bool :=
  match t !! key with Some b => b | None => false end.

Definition handleChange (f : field) (value : jsstring) (s : State) : State :=
  let s1 := setFormData (FormData_set (formData s) f value) s in
  if isTouched (touched s) (target_name f) then
    let error := validateField (target_name f) value in
    setErrors (<[target_name f := error]> (errors s1)) s1
  else s1.

Definition handleBlur (f : field) (value : jsstring) (s : State) : State :=
  let s1 := setTouched (<[target_name f := true]> (touched s)) s in
  let error := validateField (target_name f) value in
  setErrors (<[target_name f := error]> (errors s1)) s1.

Definition allTouched : Touched :=
  <[str "message" := true]> (<[str "email" := true]> (<[str "name" := true]> ∅)).

(** *** Rendering *)

(** [disabled={status === 'submitting'}], on the three controls and on the
    submit button. *)
Definition disabled (s : State) : bool := bool_decide (status s = submitting).

(** [{errors.f && touched.f && <span role="alert">{errors.f}</span>}]:
    the text of the alert rendered under control [f], if any. *)
Definition errorText (s : State) (f : field) : option jsstring :=
  match errors s !! target_name f with
  | Some (Some msg) =>
      if truthy msg && isTouched (touched s) (target_name f) then Some msg else None
  | _ => None
  end.

(** *** Timers and submission

    The only asynchronous operations are timers: the simulated send is a
    promise resolved by [setTimeout(resolve, 1500)], and the status reset
    is [setTimeout(() => setStatus('idle'), 5000)]. No timer is ever
    cleared. *)

Inductive callback :=
| resolve_send     (* [resolve] of the promise awaited by [handleSubmit] *)
| reset_status.    (* [() => setStatus('idle')] *)

Global Instance callback_eq_dec : EqDecision callback.
Proof. solve_decision. Defined.

Record World := mkWorld {
  ui : State;
  clock : N;                        (* milliseconds *)
  timers : list (N * callback)      (* pending timers, by due time *)
}.

Definition initialWorld : World := mkWorld initialState 0 [].

Definition render (s : State) (w : World) : World :=
  mkWorld s (clock w) (timers w).

(** The timer queue is ordered by due time; among equal due times the
    timer set first runs first. *)
Fixpoint enqueue (due : N) (cb : callback) (q : list (N * callback))
  : list (N * callback) :=
  match q with
  | [] => [(due, cb)]
  | (d, c) :: rest =>
      if due <? d then (due, cb) :: q else (d, c) :: enqueue due cb rest
  end.

Definition setTimeout (cb : callback) (delay : N) (w : World) : World :=
  mkWorld (ui w) (clock w) (enqueue (clock w + delay) cb (timers w)).

Definition SEND_DELAY : N := 1500.
Definition RESET_DELAY : N := 5000.

(** [handleSubmit] up to its [await]. *)
Definition handleSubmit (w : World) : World :=
  let s1 := setTouched allTouched (ui w) in
  let '(s2, valid) := validateForm s1 in
  if negb valid then render s2 w
  else setTimeout resolve_send SEND_DELAY (render (setStatus submitting s2) w).

(** How an awaited promise settles. *)
Inductive settlement := fulfilled | rejected.

(** [handleSubmit] after its [await]: the rest of the [try] block when the
    promise is fulfilled, the [catch] block when it is rejected. *)
Definition handleSubmit_resume (r : settlement) (w : World) : World :=
  match r with
  | fulfilled =>
      let s := setErrors ∅ (setTouched ∅ (setFormData emptyForm
                 (setStatus success (ui w)))) in
      setTimeout reset_status RESET_DELAY (render s w)
  | rejected =>
      setTimeout reset_status RESET_DELAY (render (setStatus error (ui w)) w)
  end.

(** The executor [(resolve) => setTimeout(resolve, 1500)] ignores its
    second argument: the promise can only be fulfilled. *)
Definition run_callback (cb : callback) (w : World) : World :=
  match cb with
  | resolve_send => handleSubmit_resume fulfilled w
  | reset_status => render (setStatus idle (ui w)) w
  end.

(** *** The event loop *)

Inductive event :=
| Change (f : field) (value : jsstring)   (* the user edits a control *)
| Blur (f : field)                        (* a control loses focus *)
| Submit                                  (* the user activates the submit button *)
| Elapse (d : N)                          (* [d] milliseconds pass *)
| Timeout.                                (* the first pending timer runs *)

(** A disabled control receives no input and a disabled button submits
    nothing. A blurred control reports its rendered value, which is the
    one of [formData] (the controls are controlled). A timer runs no
    earlier than its due time. *)
Definition step (w : World) (e : event) : option World :=
  match e with
  | Change f value =>
      Some (if disabled (ui w) then w else render (handleChange f value (ui w)) w)
  | Blur f =>
      Some (render (handleBlur f (FormData_get (formData (ui w)) f) (ui w)) w)
  | Submit =>
      Some (if disabled (ui w) then w else handleSubmit w)
  | Elapse d =>
      Some (mkWorld (ui w) (clock w + d) (timers w))
  | Timeout =>
      match timers w with
      | (due, cb) :: rest =>
          if due <=? clock w
          then Some (run_callback cb (mkWorld (ui w) (clock w) rest))
          else None
      | [] => None
      end
  end.

Fixpoint run (w : World) (evs : list event) : option World :=
  match evs with
  | [] => Some w
  | e :: rest =>
      match step w e with
      | Some w' => run w' rest
      | None => None
      end
  end.

Definition reachable (w : World) : Prop :=
  exists evs, run initialWorld evs = Some w.

(** Time does not pass over a pending timer: every timer of the run fires
    exactly when it is due. *)
Definition on_time (w : World) (e : event) : bool :=
  match e with
  | Elapse d => forallb (fun t => clock w + d <=? fst t) (timers w)
  | _ => true
  end.

Fixpoint punctual (w : World) (evs : list event) : bool :=
  match evs with
  | [] => true
  | e :: rest =>
      on_time w e &&
      match step w e with
      | Some w' => punctual w' rest
      | None => false
      end
  end.

(** The submissions in flight: the pending promises of [handleSubmit]. *)
Definition inFlight (w : World) : nat :=
  List.length (filter (fun t => snd t = resolve_send) (timers w)).

(** *** Scenarios *)

(** The user types a whole record into the three controls. *)
Definition fillIn (fd : FormData) : list event :=
  [ Change name_input (name fd); Change email_input (email fd);
    Change message_input (message fd) ].

Definition missingName : FormData :=
  mkFormData (str "") (str "a@b.com") (str "hello there").

Definition validRecord : FormData :=
  mkFormData (str "Jo Lee") (str "jo@example.com")
             (str "This is a valid message.").

(** A first submission succeeds at 1500 ms and arms the status reset for
    6500 ms. The user submits again at 5500 ms; the reset of the first
    submission fires at 6500 ms, while the second one is still pending
    (until 7000 ms), and puts the status back to idle; the user submits a
    third time. *)
Definition staleReset : list event :=
  fillIn validRecord ++ [Submit; Elapse 1500; Timeout; Elapse 4000] ++
  fillIn validRecord ++ [Submit; Elapse 1000; Timeout].

Definition staleResetThenSubmit : list event := staleReset ++ [Submit].

(** *** Scroll reveal

    The first effect of the component: an [IntersectionObserver] on the
    section sets [isVisible] at the first intersecting entry and stops
    observing the section. An entry is represented by its
    [isIntersecting] flag; its target is always the section. *)

Record Reveal := mkReveal {
  isVisible : bool;
  observed : bool         (* the observer currently observes the section *)
}.

(** The body of the [forEach] in the observer callback. *)
Definition onEntry (r : Reveal) (isIntersecting : bool) : Reveal :=
  if isIntersecting then mkReveal true false else r.

Definition observerCallback (entries : list bool) (r : Reveal) : Reveal :=
  foldl onEntry r entries.

(** The effect body and its cleanup; [section] tells whether
    [sectionRef.current] is set. *)
Definition mountObserver (section : bool) (r : Reveal) : Reveal :=
  if section then mkReveal (isVisible r) true else r.

Definition unmountObserver (section : bool) (r : Reveal) : Reveal :=
  if section then mkReveal (isVisible r) false else r.

(** The browser reports entries for observed targets only. *)
Definition notify (r : Reveal) (entries : list bool) : Reveal :=
  if observed r then observerCallback entries r else r.

End Contact.

(** ** ThemeToggle.tsx *)

Module ThemeToggle.

(** The browser facilities the component calls, in call order. *)
Inductive call :=
| GetItem (key : jsstring)                 (* [localStorage.getItem] *)
| SetItem (key value : jsstring)           (* [localStorage.setItem] *)
| Matches (query : jsstring)               (* [window.matchMedia(query).matches] *)
| SetAttribute (attr value : jsstring).    (* [document.documentElement.setAttribute] *)

Global Instance call_eq_dec : EqDecision call.
Proof. solve_decision. Defined.

Record Browser := mkBrowser {
  localStorage : gmap (list N) (list N);
  prefersDark : bool;                            (* the system colour scheme *)
  documentElement : gmap (list N) (list N);      (* attributes of the root element *)
  calls : list call
}.

(** Code running against the browser. *)
Definition IO (A : Type) : Type := Browser -> A * Browser.

Global Instance IO_ret : MRet IO := fun A x b => (x, b).
Global Instance IO_bind : MBind IO :=
  fun A B k m b => let '(x, b') := m b in k x b'.

Definition record (c : call) (b : Browser) : Browser :=
  mkBrowser (localStorage b) (prefersDark b) (documentElement b) (calls b ++ [c]).

Definition getItem (key : jsstring) : IO (option jsstring) :=
  fun b => (localStorage b !! key, record (GetItem key) b).

Definition setItem (key value : jsstring) : IO unit :=
  fun b =>
    (tt, record (SetItem key value)
           (mkBrowser (<[key := value]> (localStorage b)) (prefersDark b)
                      (documentElement b) (calls b))).

Definition matches (query : jsstring) : IO bool :=
  fun b => (prefersDark b, record (Matches query) b).

Definition setAttribute (attr value : jsstring) : IO unit :=
  fun b =>
    (tt, record (SetAttribute attr value)
           (mkBrowser (localStorage b) (prefersDark b)
                      (<[attr := value]> (documentElement b)) (calls b))).

(** Component state: [theme] is declared ['light' | 'dark'], but the value
    read from storage is cast to that type unchecked, so it is a string. *)
Record State := mkState {
  theme : jsstring;
  mounted : bool
}.

Definition initialState : State := mkState (str "light") false.

Definition setTheme (t : jsstring) (s : State) : State := mkState t (mounted s).
Definition setMounted (m : bool) (s : State) : State := mkState (theme s) m.

Definition THEME_KEY : jsstring := str "theme".
Definition DATA_THEME : jsstring := str "data-theme".
Definition DARK_QUERY : jsstring := str "(prefers-color-scheme: dark)".

Definition themeOf (dark : bool) : jsstring :=
  if dark then str "dark" else str "light".

(** The first effect: initialise from [localStorage] or from the system
    preference. [if (savedTheme)] holds for a non-empty string only. *)
Definition initialize (s : State) : IO State :=
  let s := setMounted true s in
  savedTheme ← getItem THEME_KEY;
  match savedTheme with
  | Some ((_ :: _) as saved) =>
      _ ← setAttribute DATA_THEME saved;
      mret (setTheme saved s)
  | _ =>
      prefers ← matches DARK_QUERY;
      let systemTheme := themeOf prefers in
      _ ← setAttribute DATA_THEME systemTheme;
      mret (setTheme systemTheme s)
  end.

(** The listener on the media query; [e_matches] is [e.matches]. *)
Definition handleChange (e_matches : bool) (s : State) : IO State :=
  saved ← getItem THEME_KEY;
  if negb (truthy_opt saved) then
    let newTheme := themeOf e_matches in
    _ ← setAttribute DATA_THEME newTheme;
    mret (setTheme newTheme s)
  else mret s.

Definition toggleTheme (s : State) : IO State :=
  let newTheme :=
    if decide (theme s = str "light") then str "dark" else str "light" in
  _ ← setItem THEME_KEY newTheme;
  _ ← setAttribute DATA_THEME newTheme;
  mret (setTheme newTheme s).

(** The system colour scheme changes to [dark]: the media query notifies
    its listener. *)
Definition systemChange (dark : bool) (s : State) : IO State :=
  fun b =>
    handleChange dark s
      (mkBrowser (localStorage b) dark (documentElement b) (calls b)).

(** A sequence of changes of the system colour scheme. *)
Fixpoint systemChanges (signals : list bool) (s : State) : IO State :=
  match signals with
  | [] => mret s
  | dark :: rest => s' ← systemChange dark s; systemChanges rest s'
  end.

(** The calls made between two browser states. *)
Definition issued (before after : Browser) : list call :=
  drop (List.length (calls before)) (calls after).

(** The values of the type ['light' | 'dark']. *)
Definition isTheme (v : jsstring) : Prop := v = str "light" \/ v = str "dark".

(** The type ['light' | 'dark' | null] that [initialize] casts the stored
    value to. *)
Definition slotTyped (b : Browser) : Prop :=
  match localStorage b !! THEME_KEY with
  | Some v => isTheme v
  | None => True
  end.

(** *** Rendering and events *)

(** What the rendered button exposes. Before the mount effect has run the
    button is a disabled placeholder without a click handler. *)
Record Button := mkButton {
  buttonDisabled : bool;
  ariaLabel : jsstring;
  onClick : bool;           (* [toggleTheme] is attached *)
  sunVisible : bool;
  moonVisible : bool
}.

Definition render (s : State) : Button :=
  if negb (mounted s) then
    mkButton true (str "Toggle theme") false false false
  else
    mkButton false
      (str "Switch to "
         ++ (if decide (theme s = str "light") then str "dark" else str "light")
         ++ str " mode")
      true
      (bool_decide (theme s = str "light"))
      (bool_decide (theme s = str "dark")).

Inductive event :=
| Toggle                       (* a click on the button *)
| SystemChange (dark : bool).  (* the system colour scheme changes *)

Definition step (e : event) (s : State) : IO State :=
  match e with
  | Toggle => if onClick (render s) then toggleTheme s else mret s
  | SystemChange dark => systemChange dark s
  end.

Fixpoint run (evs : list event) (s : State) : IO State :=
  match evs with
  | [] => mret s
  | e :: rest => s' ← step e s; run rest s'
  end.

(** A page load followed by events. *)
Definition session (evs : list event) : IO State :=
  s ← initialize initialState; run evs s.

End ThemeToggle.

(** ** The validation rules as the specification words them

    These definitions do not mention [trim], the regular expression or
    [validateField]; the theorems below relate them to the code. *)

Module Rules.

Import Contact.

Definition space (c : code_unit) : Prop := is_space c = true.

(** [core] is [v] with its leading and trailing whitespace removed. *)
Definition trimmed (v core : jsstring) : Prop :=
  exists pre post,
    v = pre ++ core ++ post /\
    Forall space pre /\ Forall space post /\
    (forall c rest, core = c :: rest -> ~ space c) /\
    (forall c front, core = front ++ [c] -> ~ space c).

(** "non-empty after trimming whitespace" *)
Definition required (v : jsstring) : Prop :=
  exists core, trimmed v core /\ core <> [].

(** "trimmed length >= n" *)
Definition minLength (n : nat) (v : jsstring) : Prop :=
  exists core, trimmed v core /\ (n <= List.length core)%nat.

(** A part of an address: not empty, no whitespace, no [@]. *)
Definition addressPart (p : jsstring) : Prop :=
  p <> [] /\ Forall (fun c => ~ space c /\ c <> AT) p.

(** "matches pattern local@domain.tld (no whitespace, one @, at least one
    . after it)" *)
Definition emailShape (v : jsstring) : Prop :=
  exists local domain tld,
    v = local ++ [AT] ++ domain ++ [DOT] ++ tld /\
    addressPart local /\ addressPart domain /\ addressPart tld.

(** One row of the rules table. *)
Record row := mkRow {
  rule1 : jsstring -> Prop;
  message1 : string;
  rule2 : jsstring -> Prop;
  message2 : string
}.

Definition table (f : field) : row :=
  match f with
  | name_input =>
      mkRow required "Name is required"
            (minLength 2) "Name must be at least 2 characters"
  | email_input =>
      mkRow required "Email is required"
            emailShape "Please enter a valid email address"
  | message_input =>
      mkRow required "Message is required"
            (minLength 10) "Message must be at least 10 characters"
  end.

(** The rules applied in order: the message of the first failing rule, or
    none. *)
Definition verdict (r : row) (v : jsstring) (result : option jsstring) : Prop :=
  (~ rule1 r v /\ result = Some (str (message1 r))) \/
  (rule1 r v /\ ~ rule2 r v /\ result = Some (str (message2 r))) \/
  (rule1 r v /\ rule2 r v /\ result = None).

(** A field passes when both of its rules hold. *)
Definition passes (f : field) (v : jsstring) : Prop :=
  rule1 (table f) v /\ rule2 (table f) v.

Definition valid (fd : FormData) : Prop :=
  forall f, passes f (FormData_get fd f).

End Rules.

(** ** Invariants of the form *)

Module Invariants.

Import Contact.

(** Every recorded entry of the error map is the verdict on the current
    value of its field, and that field is touched. *)
Definition errorsCurrent (s : State) : Prop :=
  forall f e,
    errors s !! target_name f = Some e ->
    e = validateField (target_name f) (FormData_get (formData s) f) /\
    isTouched (touched s) (target_name f) = true.

(** The queue is in the order of the due times. *)
Fixpoint dueOrdered (q : list (N * callback)) : Prop :=
  match q with
  | [] => True
  | t :: rest => Forall (fun u => fst t <= fst u) rest /\ dueOrdered rest
  end.

(** The delay each kind of timer is set with. *)
Definition delayOf (cb : callback) : N :=
  match cb with
  | resolve_send => SEND_DELAY
  | reset_status => RESET_DELAY
  end.

(** No timer is due later than its delay from now, and while the status
    is submitting the promise of a send is pending. *)
Definition timersBounded (w : World) : Prop :=
  dueOrdered (timers w) /\
  Forall (fun t => fst t <= clock w + delayOf (snd t)) (timers w) /\
  (status (ui w) = submitting -> exists due, In (due, resolve_send) (timers w)).

End Invariants.

(** * Properties *)

(** ** Strings *)

Section StringFacts.

Import Rules.

Lemma trimStart_all_space (p : jsstring) :
  Forall space p -> trimStart p = [].
Proof.
  induction 1 as [|c p Hc _ IH]; simpl; [reflexivity|].
  unfold space in Hc. rewrite Hc. exact IH.
Qed.

Lemma trimStart_app_space (p s : jsstring) :
  Forall space p -> trimStart (p ++ s) = trimStart s.
Proof.
  induction 1 as [|c p Hc _ IH]; simpl; [reflexivity|].
  unfold space in Hc. rewrite Hc. exact IH.
Qed.

Lemma trimStart_fixed (c : code_unit) (s : jsstring) :
  ~ space c -> trimStart (c :: s) = c :: s.
Proof.
  unfold space. intros Hc. simpl. destruct (is_space c); congruence.
Qed.

(** What [trimStart] removes is whitespace, and what is left does not
    begin with whitespace. *)
Lemma trimStart_split (s : jsstring) :
  exists pre, s = pre ++ trimStart s /\ Forall space pre /\
              forall c rest, trimStart s = c :: rest -> ~ space c.
Proof.
  induction s as [|c s (pre & Hs & Hpre & Hhead)]; simpl.
  - exists []. repeat split; [constructor | discriminate].
  - destruct (is_space c) eqn:Hc.
    + exists (c :: pre). repeat split.
      * simpl. congruence.
      * constructor; assumption.
      * exact Hhead.
    + exists []. repeat split; [constructor|].
      intros c' rest [= <- _]. unfold space. congruence.
Qed.

Lemma trim_trimmed (v : jsstring) : trimmed v (trim v).
Proof.
  unfold trim, trimEnd.
  destruct (trimStart_split v) as (pre & Hv & Hpre & Hhead).
  destruct (trimStart_split (rev (trimStart v))) as (tsop & Hr & Htsop & Hlast).
  set (t := trimStart v) in *.
  set (u := trimStart (rev t)) in *.
  assert (Ht : t = rev u ++ rev tsop).
  { rewrite <- rev_app_distr, <- Hr. symmetry. apply rev_involutive. }
  exists pre, (rev tsop). repeat split.
  - rewrite <- Ht. exact Hv.
  - exact Hpre.
  - apply Forall_forall. intros c Hc. rewrite list_elem_of_In, <- in_rev in Hc.
    rewrite Forall_forall in Htsop. apply Htsop. apply list_elem_of_In. exact Hc.
  - intros c rest Hcore. apply (Hhead c (rest ++ rev tsop)).
    rewrite Ht, Hcore. reflexivity.
  - intros c front Hcore. apply (Hlast c (rev front)).
    rewrite <- (rev_involutive u), Hcore, rev_app_distr. reflexivity.
Qed.

Lemma trimmed_unique (v core : jsstring) : trimmed v core -> core = trim v.
Proof.
  intros (pre & post & -> & Hpre & Hpost & Hhead & Hlast).
  unfold trim, trimEnd. rewrite trimStart_app_space by exact Hpre.
  destruct core as [|c rest].
  - simpl. rewrite (trimStart_all_space post Hpost). simpl. reflexivity.
  - change ((c :: rest) ++ post) with (c :: (rest ++ post)).
    rewrite trimStart_fixed by (apply (Hhead c rest); reflexivity).
    change (c :: rest ++ post) with ((c :: rest) ++ post).
    rewrite rev_app_distr, trimStart_app_space.
    + destruct (rev (c :: rest)) as [|d front] eqn:Hrev.
      * apply (f_equal (@rev _)) in Hrev. rewrite rev_involutive in Hrev.
        discriminate.
      * rewrite trimStart_fixed.
        -- rewrite <- Hrev. symmetry. apply rev_involutive.
        -- apply (Hlast d (rev front)).
           rewrite <- (rev_involutive (c :: rest)), Hrev. reflexivity.
    + apply Forall_forall. intros x Hx. rewrite list_elem_of_In, <- in_rev in Hx.
      rewrite Forall_forall in Hpost. apply Hpost, list_elem_of_In, Hx.
Qed.

Lemma required_iff (v : jsstring) : required v <-> truthy (trim v) = true.
Proof.
  split.
  - intros (core & Hc & Hne). rewrite <- (trimmed_unique v core Hc).
    destruct core; [congruence | reflexivity].
  - intros Ht. exists (trim v). split; [apply trim_trimmed|].
    destruct (trim v); [discriminate | congruence].
Qed.

Lemma minLength_iff (n : nat) (v : jsstring) :
  minLength n v <-> (jslength (trim v) <? N.of_nat n) = false.
Proof.
  unfold jslength. rewrite N.ltb_ge. split.
  - intros (core & Hc & Hn). rewrite <- (trimmed_unique v core Hc). lia.
  - intros Hn. exists (trim v). split; [apply trim_trimmed | lia].
Qed.

End StringFacts.

(** ** The regular expression *)

Section RegExpFacts.

Import RegExp Contact Rules.

Lemma exec_nil (s : jsstring) : exec [] s = true <-> s = [].
Proof. destruct s; simpl; split; congruence. Qed.

Lemma exec_one (a : atom) (rest : list item) (s : jsstring) :
  exec (One a :: rest) s = true <->
  exists c s', s = c :: s' /\ accepts a c = true /\ exec rest s' = true.
Proof.
  destruct s as [|c s']; simpl.
  - split; [discriminate | intros (? & ? & [=] & _)].
  - rewrite andb_true_iff. split.
    + intros [Ha Hr]. exists c, s'. auto.
    + intros (c' & s'' & [= <- <-] & Ha & Hr). auto.
Qed.

(** A [+] takes a non-empty run of accepted characters, and the rest of
    the pattern matches what follows the run. *)
Lemma exec_plus (a : atom) (rest : list item) (s : jsstring) :
  exec (Plus a :: rest) s = true <->
  exists run tail,
    s = run ++ tail /\ run <> [] /\
    Forall (fun c => accepts a c = true) run /\ exec rest tail = true.
Proof.
  induction s as [|c s IH].
  - simpl. split; [discriminate|].
    intros (run & tail & Hs & Hne & _). destruct run; [congruence | discriminate].
  - change (exec (Plus a :: rest) (c :: s))
      with (accepts a c && (exec (Plus a :: rest) s || exec rest s)).
    rewrite andb_true_iff, orb_true_iff, IH. split.
    + intros [Ha [(run & tail & -> & Hne & Hrun & Hrest) | Hrest]].
      * exists (c :: run), tail. repeat split; [discriminate | | exact Hrest].
        constructor; assumption.
      * exists [c], s. repeat split; [discriminate | | exact Hrest].
        constructor; [assumption | constructor].
    + intros (run & tail & Hs & Hne & Hrun & Hrest).
      destruct run as [|c' run]; [congruence|].
      injection Hs as <- ->. inversion Hrun as [|? ? Ha Hrun']; subst.
      split; [exact Ha|].
      destruct run as [|c'' run].
      * right. exact Hrest.
      * left. exists (c'' :: run), tail. repeat split; [discriminate | | ]; assumption.
Qed.

Lemma addressPart_accepts (p : jsstring) :
  addressPart p <->
  p <> [] /\ Forall (fun c => accepts (NotSpaceNor AT) c = true) p.
Proof.
  unfold addressPart. split; intros [Hne Hall]; (split; [exact Hne|]);
    eapply Forall_impl; try exact Hall; intros c; simpl; unfold space.
  - intros [Hs Hat]. apply andb_true_iff. split.
    + destruct (is_space c); [congruence | reflexivity].
    + apply negb_true_iff, N.eqb_neq. exact Hat.
  - rewrite andb_true_iff, !negb_true_iff, N.eqb_neq. intros [-> Hat].
    split; [discriminate | exact Hat].
Qed.

(** The regular expression accepts exactly the addresses of the shape
    [local@domain.tld]. *)
Lemma isValidEmail_shape (v : jsstring) :
  Contact.isValidEmail v = true <-> emailShape v.
Proof.
  unfold Contact.isValidEmail, test, Contact.emailRegex, emailShape. split.
  - intros H.
    apply exec_plus in H as (local & t1 & -> & Hl & Hlall & H).
    apply exec_one in H as (c1 & t2 & -> & Hc1 & H).
    apply exec_plus in H as (domain & t3 & -> & Hd & Hdall & H).
    apply exec_one in H as (c2 & t4 & -> & Hc2 & H).
    apply exec_plus in H as (tld & t5 & -> & Ht & Htall & H).
    apply exec_nil in H as ->.
    simpl in Hc1, Hc2. apply N.eqb_eq in Hc1 as ->. apply N.eqb_eq in Hc2 as ->.
    exists local, domain, tld. rewrite app_nil_r.
    repeat split; try reflexivity;
      try (apply addressPart_accepts; split; assumption).
  - intros (local & domain & tld & -> & Hl & Hd & Ht).
    apply addressPart_accepts in Hl as [Hl Hlall].
    apply addressPart_accepts in Hd as [Hd Hdall].
    apply addressPart_accepts in Ht as [Ht Htall].
    apply exec_plus. exists local, ([AT] ++ domain ++ [DOT] ++ tld).
    repeat split; try assumption.
    apply exec_one. exists AT, (domain ++ [DOT] ++ tld).
    split; [reflexivity|]. split; [reflexivity|].
    apply exec_plus. exists domain, ([DOT] ++ tld).
    repeat split; try assumption.
    apply exec_one. exists DOT, tld.
    split; [reflexivity|]. split; [reflexivity|].
    apply exec_plus. exists tld, []. rewrite app_nil_r.
    repeat split; try assumption.
Qed.

End RegExpFacts.

(** ** validateField *)

Section ValidateFieldFacts.

Import Contact Rules.

(** Resolve the [switch] on a known field name. *)
Ltac switch_on_name :=
  unfold validateField;
  repeat match goal with
         | |- context [decide (?a = ?b)] =>
             let Hname := fresh "Hname" in
             destruct (decide (a = b)) as [Hname|Hname];
             [ try (exfalso; vm_compute in Hname; discriminate Hname)
             | try (exfalso; apply Hname; reflexivity) ]
         end.

Lemma validateField_name (v : jsstring) :
  validateField (str "name") v =
  if negb (truthy (trim v)) then Some (str "Name is required")
  else if jslength (trim v) <? N.of_nat 2
       then Some (str "Name must be at least 2 characters") else None.
Proof. switch_on_name. reflexivity. Qed.

Lemma validateField_email (v : jsstring) :
  validateField (str "email") v =
  if negb (truthy (trim v)) then Some (str "Email is required")
  else if negb (isValidEmail v)
       then Some (str "Please enter a valid email address") else None.
Proof. switch_on_name. reflexivity. Qed.

Lemma validateField_message (v : jsstring) :
  validateField (str "message") v =
  if negb (truthy (trim v)) then Some (str "Message is required")
  else if jslength (trim v) <? N.of_nat 10
       then Some (str "Message must be at least 10 characters") else None.
Proof. switch_on_name. reflexivity. Qed.

(** Every message the function returns is a non-empty string, so
    [if (error)] holds exactly when a message was returned. *)
Lemma validateField_truthy (key v : jsstring) :
  truthy_opt (validateField key v) = true <-> validateField key v <> None.
Proof.
  unfold validateField.
  repeat case_decide;
    repeat match goal with |- context [if ?b then _ else _] => destruct b end;
    simpl; split; congruence.
Qed.

(** A field passes both of its rules exactly when no message is returned. *)
Lemma validateField_None_iff (f : field) (v : jsstring) :
  validateField (target_name f) v = None <-> passes f v.
Proof.
  unfold passes. destruct f; simpl.
  - rewrite validateField_name, required_iff, (minLength_iff 2).
    destruct (truthy (trim v)), (jslength (trim v) <? N.of_nat 2); simpl;
      intuition congruence.
  - rewrite validateField_email, required_iff, <- isValidEmail_shape.
    destruct (truthy (trim v)), (isValidEmail v); simpl; intuition congruence.
  - rewrite validateField_message, required_iff, (minLength_iff 10).
    destruct (truthy (trim v)), (jslength (trim v) <? N.of_nat 10); simpl;
      intuition congruence.
Qed.

(** C1. For each of the fields name, email and message and every string
    value, [validateField] applies the two rules of the field in order and
    returns the message of the first rule that fails, or nothing when both
    hold: the value must be non-empty after trimming ("... is required"),
    and then have a trimmed length of at least 2 (name) or 10 (message), or
    have the shape local@domain.tld without whitespace and with a single
    [@] (email). *)
Theorem C1_validateField_rules (f : field) (v : jsstring) :
  verdict (table f) v (validateField (target_name f) v).
Proof.
  unfold verdict. destruct f; simpl.
  - rewrite validateField_name, required_iff, (minLength_iff 2).
    destruct (truthy (trim v)); simpl.
    + destruct (jslength (trim v) <? N.of_nat 2); simpl.
      * right; left. repeat split; congruence.
      * right; right. repeat split; congruence.
    + left. split; congruence.
  - rewrite validateField_email, required_iff, <- isValidEmail_shape.
    destruct (truthy (trim v)); simpl.
    + destruct (isValidEmail v); simpl.
      * right; right. repeat split; congruence.
      * right; left. repeat split; congruence.
    + left. split; congruence.
  - rewrite validateField_message, required_iff, (minLength_iff 10).
    destruct (truthy (trim v)); simpl.
    + destruct (jslength (trim v) <? N.of_nat 10); simpl.
      * right; left. repeat split; congruence.
      * right; right. repeat split; congruence.
    + left. split; congruence.
Qed.

(** C10. For a field name other than "name", "email" and "message",
    [validateField] returns no error, whatever the value. *)
Theorem C10_validateField_unknown_name (key v : jsstring) :
  key <> str "name" -> key <> str "email" -> key <> str "message" ->
  validateField key v = None.
Proof.
  intros Hn He Hm. unfold validateField.
  rewrite !decide_False by assumption. reflexivity.
Qed.

Lemma C10_validateField_unknown_name_witness :
  validateField (str "phone") (str "") = None.
Proof.
  apply (C10_validateField_unknown_name (str "phone") (str ""));
    vm_compute; discriminate.
Defined.

End ValidateFieldFacts.

(** ** validateForm *)

Section ValidateFormFacts.

Import Contact Rules.

Lemma field_named_target (f : field) : field_named (target_name f) = Some f.
Proof. destruct f; reflexivity. Qed.

Lemma field_named_Some (key : jsstring) (f : field) :
  field_named key = Some f -> key = target_name f.
Proof.
  unfold field_named. repeat case_decide; intros [= <-]; assumption.
Qed.

Lemma field_named_None (key : jsstring) (f : field) :
  field_named key = None -> key <> target_name f.
Proof.
  intros Hnone ->. rewrite field_named_target in Hnone. discriminate.
Qed.

(** One visit records the message of the visited field, if there is one,
    and leaves every other key alone. *)
Lemma validateForm_visit_lookup (fd : FormData) (acc : FormErrors)
      (f : field) (key : jsstring) :
  validateForm_visit fd acc f !! key =
  if decide (target_name f = key) then
    match validateField key (FormData_get fd f) with
    | Some msg => Some (Some msg)
    | None => acc !! key
    end
  else acc !! key.
Proof.
  unfold validateForm_visit.
  pose proof (validateField_truthy (target_name f) (FormData_get fd f)) as Ht.
  destruct (validateField (target_name f) (FormData_get fd f)) as [msg|] eqn:He.
  - replace (truthy_opt (Some msg)) with true
      by (symmetry; apply Ht; discriminate).
    rewrite lookup_insert. case_decide; [subst key; rewrite He|]; reflexivity.
  - simpl. case_decide; [subst key; rewrite He|]; reflexivity.
Qed.

(** The map [validateForm] builds: exactly the failing fields, each with
    its message. *)
Lemma newErrors_lookup (fd : FormData) (key : jsstring) :
  foldl (validateForm_visit fd) ∅ FormData_keys !! key =
  match field_named key with
  | Some f => Some <$> validateField key (FormData_get fd f)
  | None => None
  end.
Proof.
  unfold FormData_keys. simpl foldl.
  rewrite !validateForm_visit_lookup, lookup_empty.
  destruct (field_named key) as [f|] eqn:Hf.
  - apply field_named_Some in Hf as ->.
    destruct f; simpl target_name;
      repeat (rewrite decide_True by reflexivity
              || rewrite decide_False by (vm_compute; discriminate));
      destruct (validateField _ _); reflexivity.
  - rewrite !decide_False by (apply not_eq_sym, field_named_None; exact Hf).
    reflexivity.
Qed.

End ValidateFormFacts.

Section ValidateFormClaim.

Import Contact Rules.

Lemma newErrors_empty_iff (fd : FormData) :
  foldl (validateForm_visit fd) ∅ FormData_keys = ∅ <-> valid fd.
Proof.
  unfold valid. split.
  - intros Hempty f. apply validateField_None_iff.
    pose proof (newErrors_lookup fd (target_name f)) as Hl.
    rewrite Hempty, lookup_empty, field_named_target in Hl.
    destruct (validateField _ _); [discriminate | reflexivity].
  - intros Hvalid. apply map_eq. intros key.
    rewrite newErrors_lookup, lookup_empty.
    destruct (field_named key) as [f|] eqn:Hf; [|reflexivity].
    apply field_named_Some in Hf as ->.
    pose proof (proj2 (validateField_None_iff f _) (Hvalid f)) as ->.
    reflexivity.
Qed.

Lemma validateForm_result (s : State) :
  snd (validateForm s) = true <-> valid (formData s).
Proof.
  unfold validateForm. simpl snd.
  rewrite bool_decide_eq_true, map_size_empty_iff. apply newErrors_empty_iff.
Qed.

(** C2. For every form record, [validateForm] replaces the error map by
    the map that holds exactly the fields for which [validateField]
    returns a message (each with that message), and it returns true
    exactly when each of the three fields passes both of its rules, which
    is exactly when the new error map is empty. Nothing else of the state
    changes. *)
Theorem C2_validateForm (s : State) :
  (forall key : jsstring,
     errors (fst (validateForm s)) !! key =
     match field_named key with
     | Some f => Some <$> validateField key (FormData_get (formData s) f)
     | None => None
     end) /\
  (snd (validateForm s) = true <-> valid (formData s)) /\
  (snd (validateForm s) = true <-> errors (fst (validateForm s)) = ∅) /\
  formData (fst (validateForm s)) = formData s /\
  touched (fst (validateForm s)) = touched s /\
  status (fst (validateForm s)) = status s.
Proof.
  split; [|split; [|split]].
  - intros key. apply newErrors_lookup.
  - apply validateForm_result.
  - rewrite validateForm_result. symmetry. apply newErrors_empty_iff.
  - repeat split.
Qed.

End ValidateFormClaim.

(** ** Submission *)

Section SubmitFacts.

Import Contact Rules.

Lemma validateForm_setTouched (t : Touched) (s : State) :
  validateForm (setTouched t s) =
  (setTouched t (fst (validateForm s)), snd (validateForm s)).
Proof. reflexivity. Qed.

Lemma handleSubmit_invalid (w : World) :
  ~ valid (formData (ui w)) ->
  handleSubmit w = render (setTouched allTouched (fst (validateForm (ui w)))) w.
Proof.
  intros Hinv. unfold handleSubmit. rewrite validateForm_setTouched.
  destruct (snd (validateForm (ui w))) eqn:Hok; [|reflexivity].
  exfalso. apply Hinv, validateForm_result, Hok.
Qed.

Lemma handleSubmit_valid (w : World) :
  valid (formData (ui w)) ->
  handleSubmit w =
  setTimeout resolve_send SEND_DELAY
    (render (setStatus submitting
               (setTouched allTouched (fst (validateForm (ui w))))) w).
Proof.
  intros Hv. unfold handleSubmit. rewrite validateForm_setTouched.
  apply validateForm_result in Hv. rewrite Hv. reflexivity.
Qed.

Lemma ui_render (s : State) (w : World) : ui (render s w) = s.
Proof. reflexivity. Qed.

Lemma allTouched_isTouched (f : field) :
  isTouched allTouched (target_name f) = true.
Proof. destruct f; reflexivity. Qed.

(** With every field touched, the alert under a control is the message
    recorded for it. *)
Lemma errorText_newErrors (s : State) (f : field) :
  errorText (setTouched allTouched (fst (validateForm s))) f =
  validateField (target_name f) (FormData_get (formData s) f).
Proof.
  unfold errorText.
  change (errors (setTouched allTouched (fst (validateForm s))))
    with (foldl (validateForm_visit (formData s)) ∅ FormData_keys).
  change (touched (setTouched allTouched (fst (validateForm s))))
    with allTouched.
  rewrite newErrors_lookup, field_named_target, allTouched_isTouched.
  pose proof (validateField_truthy (target_name f)
                (FormData_get (formData s) f)) as Ht.
  destruct (validateField _ _) as [msg|]; simpl; [|reflexivity].
  simpl in Ht. rewrite (proj2 Ht) by discriminate. reflexivity.
Qed.

Lemma missingName_invalid : ~ valid missingName.
Proof.
  intros Hv. specialize (Hv name_input).
  apply validateField_None_iff in Hv. vm_compute in Hv. discriminate.
Qed.

(** C3. When the record fails validation, a submission from the idle
    state marks the three fields as touched, starts no send (no timer is
    set), leaves the status at idle and the record as it is, and the error
    map holds, and the form shows, the message of every failing field.
    In particular, for name "", email "a@b.com" and message "hello there"
    the only alert shown is "Name is required", under the name field. *)
Theorem C3_invalid_submit_blocked (w : World) :
  ~ valid (formData (ui w)) -> status (ui w) = idle ->
  exists w',
    step w Submit = Some w' /\
    touched (ui w') = allTouched /\
    (forall f, isTouched (touched (ui w')) (target_name f) = true) /\
    timers w' = timers w /\ inFlight w' = inFlight w /\
    status (ui w') = idle /\
    formData (ui w') = formData (ui w) /\
    (forall f, errors (ui w') !! target_name f =
               Some <$> validateField (target_name f)
                          (FormData_get (formData (ui w)) f)) /\
    (forall f, errorText (ui w') f =
               validateField (target_name f) (FormData_get (formData (ui w)) f)) /\
    (formData (ui w) = missingName ->
       errorText (ui w') name_input = Some (str "Name is required") /\
       errorText (ui w') email_input = None /\
       errorText (ui w') message_input = None).
Proof.
  intros Hinv Hidle.
  exists (render (setTouched allTouched (fst (validateForm (ui w)))) w).
  split.
  { simpl. unfold disabled. rewrite Hidle. simpl.
    rewrite handleSubmit_invalid by exact Hinv. reflexivity. }
  split; [reflexivity|].
  split; [intros f; apply allTouched_isTouched|].
  split; [reflexivity|]. split; [reflexivity|].
  split; [exact Hidle|]. split; [reflexivity|].
  split.
  { intros f.
    change (errors (ui (render (setTouched allTouched
                                  (fst (validateForm (ui w)))) w)))
      with (foldl (validateForm_visit (formData (ui w))) ∅ FormData_keys).
    rewrite newErrors_lookup, field_named_target. reflexivity. }
  split.
  { intros f. rewrite ui_render. apply errorText_newErrors. }
  intros Hfd. rewrite ui_render, !errorText_newErrors, Hfd.
  repeat split; vm_compute; reflexivity.
Qed.

Lemma C3_invalid_submit_blocked_witness :
  exists w',
    step (mkWorld (mkState missingName ∅ ∅ idle) 0 []) Submit = Some w' /\
    timers w' = [] /\ status (ui w') = idle /\
    errorText (ui w') name_input = Some (str "Name is required") /\
    errorText (ui w') email_input = None /\
    errorText (ui w') message_input = None.
Proof.
  destruct (C3_invalid_submit_blocked
              (mkWorld (mkState missingName ∅ ∅ idle) 0 [])
              missingName_invalid eq_refl)
    as (w' & Hstep & _ & _ & Htimers & _ & Hstatus & _ & _ & _ & Hshown).
  destruct (Hshown eq_refl) as (Hn & He & Hm).
  exists w'. repeat split; assumption.
Defined.

End SubmitFacts.

(** ** The submission status machine *)

Section StatusMachine.

Import Contact Rules.

Lemma inFlight_enqueue_send (due : N) (w : World) :
  inFlight (mkWorld (ui w) (clock w) (enqueue due resolve_send (timers w))) =
  S (inFlight w).
Proof.
  unfold inFlight. simpl timers.
  induction (timers w) as [|[d c] q IH]; [reflexivity|].
  simpl enqueue. destruct (due <? d).
  - rewrite filter_cons_True by reflexivity. reflexivity.
  - rewrite !filter_cons. case_decide; simpl; rewrite IH; reflexivity.
Qed.

Lemma step_Submit_valid (w : World) :
  valid (formData (ui w)) -> status (ui w) <> submitting ->
  step w Submit =
  Some (setTimeout resolve_send SEND_DELAY
          (render (setStatus submitting
                     (setTouched allTouched (fst (validateForm (ui w))))) w)).
Proof.
  intros Hv Hs. simpl. unfold disabled.
  rewrite bool_decide_eq_false_2 by exact Hs.
  rewrite handleSubmit_valid by exact Hv. reflexivity.
Qed.

(** When the promise of a send is resolved, the status becomes success and
    the record, the touched map and the error map are emptied in the same
    step; the reset timer is set. *)
Lemma step_Timeout_send (w : World) (due : N) (rest : list (N * callback)) :
  timers w = (due, resolve_send) :: rest -> due <= clock w ->
  step w Timeout =
  Some (mkWorld (mkState emptyForm ∅ ∅ success) (clock w)
                (enqueue (clock w + RESET_DELAY) reset_status rest)).
Proof.
  intros Ht Hdue. simpl. rewrite Ht.
  apply N.leb_le in Hdue. rewrite Hdue. reflexivity.
Qed.

Lemma step_Timeout_reset (w : World) (due : N) (rest : list (N * callback)) :
  timers w = (due, reset_status) :: rest -> due <= clock w ->
  step w Timeout = Some (mkWorld (setStatus idle (ui w)) (clock w) rest).
Proof.
  intros Ht Hdue. simpl. rewrite Ht.
  apply N.leb_le in Hdue. rewrite Hdue. reflexivity.
Qed.

(** Clicking the submit button while the status is submitting changes
    nothing: the button is disabled. *)
Lemma step_Submit_disabled (w : World) :
  status (ui w) = submitting -> step w Submit = Some w.
Proof. intros Hs. simpl. unfold disabled. rewrite Hs. reflexivity. Qed.

(** C4. A valid record submitted from the idle state moves the status to
    submitting and starts one send. When the send completes, one step sets
    the status to success and resets the record, the touched map and the
    error map together, and sets a timer for 5 * 1000 ms; when that timer
    runs, the status is idle again. With no other timer pending, the run
    is idle, submitting, success (at 1500 ms), idle (5000 ms later). *)
Theorem C4_valid_submit_succeeds (w : World) :
  valid (formData (ui w)) -> status (ui w) = idle ->
  (exists w1,
     step w Submit = Some w1 /\ status (ui w1) = submitting /\
     formData (ui w1) = formData (ui w) /\
     timers w1 = enqueue (clock w + 1500) resolve_send (timers w) /\
     inFlight w1 = S (inFlight w)) /\
  (forall w' due rest,
     timers w' = (due, resolve_send) :: rest -> due <= clock w' ->
     exists w2,
       step w' Timeout = Some w2 /\
       ui w2 = mkState emptyForm ∅ ∅ success /\
       timers w2 = enqueue (clock w' + 5 * 1000) reset_status rest) /\
  (forall w' due rest,
     timers w' = (due, reset_status) :: rest -> due <= clock w' ->
     exists w3,
       step w' Timeout = Some w3 /\ ui w3 = setStatus idle (ui w') /\
       timers w3 = rest) /\
  (timers w = [] ->
   exists w2 w3,
     run w [Submit; Elapse 1500; Timeout] = Some w2 /\
     ui w2 = mkState emptyForm ∅ ∅ success /\
     clock w2 = clock w + 1500 /\
     timers w2 = [(clock w2 + 5 * 1000, reset_status)] /\
     run w2 [Elapse (5 * 1000); Timeout] = Some w3 /\
     ui w3 = initialState /\ timers w3 = []).
Proof.
  intros Hv Hidle.
  assert (Hs : status (ui w) <> submitting) by (rewrite Hidle; discriminate).
  split; [|split; [|split]].
  - eexists. split; [apply step_Submit_valid; assumption|].
    repeat split. apply (inFlight_enqueue_send _
      (render (setStatus submitting
                 (setTouched allTouched (fst (validateForm (ui w))))) w)).
  - intros w' due rest Ht Hdue. eexists.
    split; [eapply step_Timeout_send; eassumption|]. split; reflexivity.
  - intros w' due rest Ht Hdue. eexists.
    split; [eapply step_Timeout_reset; eassumption|]. split; reflexivity.
  - intros Hq.
    exists (mkWorld (mkState emptyForm ∅ ∅ success) (clock w + 1500)
                    [(clock w + 1500 + 5 * 1000, reset_status)]),
           (mkWorld initialState (clock w + 1500 + 5 * 1000) []).
    split.
    { unfold run. rewrite step_Submit_valid by assumption.
      unfold setTimeout. simpl timers. rewrite Hq. simpl enqueue.
      cbn [step clock timers ui render]. unfold SEND_DELAY. rewrite N.leb_refl.
      reflexivity. }
    repeat split.
    cbn [run step clock timers ui]. rewrite N.leb_refl. reflexivity.
Qed.

Lemma validRecord_valid : valid validRecord.
Proof.
  intros f. apply validateField_None_iff. destruct f; vm_compute; reflexivity.
Qed.

Lemma C4_valid_submit_succeeds_witness :
  exists w2 w3,
    run (mkWorld (mkState validRecord ∅ ∅ idle) 0 [])
        [Submit; Elapse 1500; Timeout] = Some w2 /\
    ui w2 = mkState emptyForm ∅ ∅ success /\
    timers w2 = [(6500, reset_status)] /\
    run w2 [Elapse 5000; Timeout] = Some w3 /\
    ui w3 = initialState.
Proof.
  destruct (C4_valid_submit_succeeds
              (mkWorld (mkState validRecord ∅ ∅ idle) 0 [])
              validRecord_valid eq_refl)
    as (_ & _ & _ & Hrun).
  destruct (Hrun eq_refl) as (w2 & w3 & H1 & H2 & H3 & H4 & H5 & H6 & _).
  exists w2, w3. rewrite H3 in H4. repeat split; assumption.
Defined.

End StatusMachine.

Section StatusInvariants.

Import Contact Rules.

(** A step leaves the status as it is or sets it to idle, submitting or
    success. *)
Lemma step_status (w w' : World) (e : event) :
  step w e = Some w' ->
  status (ui w') = status (ui w) \/ status (ui w') = idle \/
  status (ui w') = submitting \/ status (ui w') = success.
Proof.
  destruct e as [f value|f| |d|]; simpl.
  - intros [= <-]. left. destruct (disabled (ui w)); [reflexivity|].
    unfold handleChange. destruct (isTouched _ _); reflexivity.
  - intros [= <-]. left. reflexivity.
  - intros [= <-]. destruct (disabled (ui w)); [left; reflexivity|].
    unfold handleSubmit. rewrite validateForm_setTouched.
    destruct (snd (validateForm (ui w))); simpl; auto.
  - intros [= <-]. left. reflexivity.
  - destruct (timers w) as [|[due cb] rest]; [discriminate|].
    destruct (due <=? clock w); [|discriminate].
    intros [= <-]. destruct cb; simpl; auto.
Qed.

Lemma run_status_not_error (evs : list event) (w w' : World) :
  status (ui w) <> error -> run w evs = Some w' -> status (ui w') <> error.
Proof.
  revert w. induction evs as [|e evs IH]; intros w Hw; simpl.
  - intros [= <-]. exact Hw.
  - destruct (step w e) as [w1|] eqn:Hstep; [|discriminate].
    apply IH. apply step_status in Hstep as [H|[H|[H|H]]]; rewrite H;
      [exact Hw | discriminate..].
Qed.

(** C9. The promise awaited by [handleSubmit] is only ever resolved: its
    timer runs the continuation with a fulfilled promise. Hence in every
    state the form can reach the status is not error: the [catch] block,
    the one that sets the status to error and keeps the record, never
    runs. *)
Theorem C9_status_never_error (w : World) :
  reachable w ->
  status (ui w) <> error /\
  (forall w0, run_callback resolve_send w0 = handleSubmit_resume fulfilled w0) /\
  (forall w0, status (ui (handleSubmit_resume rejected w0)) = error /\
              formData (ui (handleSubmit_resume rejected w0)) = formData (ui w0)).
Proof.
  intros [evs Hrun]. split; [|split].
  - apply (run_status_not_error evs initialWorld w); [discriminate | exact Hrun].
  - reflexivity.
  - intros w0. split; reflexivity.
Qed.

Lemma C9_status_never_error_witness :
  exists w,
    run initialWorld (fillIn validRecord ++ [Submit; Elapse 1500; Timeout]) = Some w /\
    status (ui w) = success /\ status (ui w) <> error.
Proof.
  eexists. split; [vm_compute; reflexivity|]. split; [reflexivity|].
  apply C9_status_never_error.
  exists (fillIn validRecord ++ [Submit; Elapse 1500; Timeout]).
  vm_compute. reflexivity.
Defined.

(** C8. The alert under a control is rendered only when an error message
    is recorded for the field and the field is marked as touched. This
    holds in every state of the form, reachable or not. *)
Theorem C8_error_shown_only_if_touched (s : State) (f : field) (msg : jsstring) :
  errorText s f = Some msg ->
  errors s !! target_name f = Some (Some msg) /\
  touched s !! target_name f = Some true.
Proof.
  unfold errorText, isTouched.
  destruct (errors s !! target_name f) as [[m|]|]; try discriminate.
  destruct (truthy m); simpl; [|discriminate].
  destruct (touched s !! target_name f) as [[|]|]; try discriminate.
  intros [= ->]. split; reflexivity.
Qed.

Lemma C8_error_shown_only_if_touched_witness :
  errors (handleBlur name_input (str "") initialState) !! str "name"
    = Some (Some (str "Name is required")) /\
  touched (handleBlur name_input (str "") initialState) !! str "name"
    = Some true.
Proof.
  apply (C8_error_shown_only_if_touched
           (handleBlur name_input (str "") initialState) name_input
           (str "Name is required")).
  vm_compute. reflexivity.
Defined.

(** C5. The stale reset: after a first successful submission, the user
    submits again within five seconds; the reset timer of the first
    submission runs while the second one is pending and sets the status
    to idle, which enables the submit button; one more click starts
    another send. Two submissions are then in flight. Every timer of the
    run fires exactly when it is due. *)
Theorem C5_stale_reset_two_in_flight :
  punctual initialWorld staleResetThenSubmit = true /\
  (exists w,
     run initialWorld staleReset = Some w /\
     status (ui w) = idle /\ disabled (ui w) = false /\
     timers w = [(7000, resolve_send)] /\ inFlight w = 1%nat) /\
  (exists w,
     run initialWorld staleResetThenSubmit = Some w /\
     timers w = [(7000, resolve_send); (8000, resolve_send)] /\
     inFlight w = 2%nat).
Proof.
  split; [vm_compute; reflexivity|].
  split; eexists; (split; [vm_compute; reflexivity|]); repeat split.
Qed.

End StatusInvariants.

(** ** Theme preference *)

Section ThemeFacts.

Import ThemeToggle.

Lemma issued_app (b : Browser) (ls at_ : gmap (list N) (list N)) (d : bool)
      (cs : list call) :
  issued b (mkBrowser ls d at_ (calls b ++ cs)) = cs.
Proof. unfold issued. simpl calls. apply drop_app_length. Qed.

Lemma isTheme_truthy (v : jsstring) : isTheme v -> truthy v = true.
Proof. intros [-> | ->]; reflexivity. Qed.

(** A non-empty stored value is adopted as it is; the system preference
    is not consulted. *)
Lemma initialize_saved (s : State) (b : Browser) (v : jsstring) :
  localStorage b !! THEME_KEY = Some v -> truthy v = true ->
  initialize s b =
  (mkState v true,
   mkBrowser (localStorage b) (prefersDark b)
             (<[DATA_THEME := v]> (documentElement b))
             (calls b ++ [GetItem THEME_KEY; SetAttribute DATA_THEME v])).
Proof.
  intros Hv Ht. unfold initialize, mbind, IO_bind, getItem. rewrite Hv.
  destruct v as [|c v]; [discriminate|].
  unfold setAttribute, record, mret, IO_ret. simpl.
  rewrite <- app_assoc. reflexivity.
Qed.

Lemma initialize_absent (s : State) (b : Browser) :
  localStorage b !! THEME_KEY = None ->
  initialize s b =
  (mkState (themeOf (prefersDark b)) true,
   mkBrowser (localStorage b) (prefersDark b)
             (<[DATA_THEME := themeOf (prefersDark b)]> (documentElement b))
             (calls b ++ [GetItem THEME_KEY; Matches DARK_QUERY;
                          SetAttribute DATA_THEME (themeOf (prefersDark b))])).
Proof.
  intros Hv. unfold initialize, mbind, IO_bind, getItem. rewrite Hv.
  unfold matches, setAttribute, record, mret, IO_ret. simpl.
  rewrite <- !app_assoc. reflexivity.
Qed.

(** [toggleTheme] stores one of the two theme names. *)
Lemma toggleTheme_stores (s : State) (b : Browser) :
  localStorage (snd (toggleTheme s b)) !! THEME_KEY
    = Some (theme (fst (toggleTheme s b))) /\
  documentElement (snd (toggleTheme s b)) !! DATA_THEME
    = Some (theme (fst (toggleTheme s b))) /\
  isTheme (theme (fst (toggleTheme s b))).
Proof.
  unfold toggleTheme, mbind, IO_bind, setItem, setAttribute, record, mret, IO_ret.
  simpl. rewrite !lookup_insert_eq.
  repeat split. unfold isTheme. case_decide; auto.
Qed.

(** C6. [initialize] reads the stored theme once. If a theme is stored,
    it becomes the theme of the component and the value of the root
    attribute, and the system preference is not queried; in particular a
    fresh [initialize] after a [toggleTheme] takes the value the toggle
    stored. If nothing is stored, the theme and the attribute follow the
    system preference, and nothing is written to the storage. *)
Theorem C6_initialize (s : State) (b : Browser) :
  slotTyped b ->
  localStorage (snd (initialize s b)) = localStorage b /\
  List.length (filter (fun c => c = GetItem THEME_KEY)
                 (issued b (snd (initialize s b)))) = 1%nat /\
  match localStorage b !! THEME_KEY with
  | Some v =>
      theme (fst (initialize s b)) = v /\
      documentElement (snd (initialize s b)) !! DATA_THEME = Some v /\
      issued b (snd (initialize s b)) =
        [GetItem THEME_KEY; SetAttribute DATA_THEME v]
  | None =>
      theme (fst (initialize s b))
        = (if prefersDark b then str "dark" else str "light") /\
      documentElement (snd (initialize s b)) !! DATA_THEME
        = Some (if prefersDark b then str "dark" else str "light") /\
      issued b (snd (initialize s b)) =
        [GetItem THEME_KEY; Matches DARK_QUERY;
         SetAttribute DATA_THEME
           (if prefersDark b then str "dark" else str "light")]
  end /\
  (forall s0 fresh,
     localStorage fresh = localStorage (snd (toggleTheme s0 b)) ->
     theme (fst (initialize initialState fresh)) = theme (fst (toggleTheme s0 b)) /\
     issued fresh (snd (initialize initialState fresh)) =
       [GetItem THEME_KEY;
        SetAttribute DATA_THEME (theme (fst (toggleTheme s0 b)))]).
Proof.
  intros Htyped. unfold slotTyped in Htyped.
  split; [|split; [|split]].
  - destruct (localStorage b !! THEME_KEY) as [v|] eqn:Hv.
    + rewrite (initialize_saved s b v Hv (isTheme_truthy v Htyped)). reflexivity.
    + rewrite (initialize_absent s b Hv). reflexivity.
  - destruct (localStorage b !! THEME_KEY) as [v|] eqn:Hv.
    + rewrite (initialize_saved s b v Hv (isTheme_truthy v Htyped)).
      simpl snd. rewrite issued_app. reflexivity.
    + rewrite (initialize_absent s b Hv).
      simpl snd. rewrite issued_app. reflexivity.
  - destruct (localStorage b !! THEME_KEY) as [v|] eqn:Hv.
    + rewrite (initialize_saved s b v Hv (isTheme_truthy v Htyped)).
      simpl fst. simpl snd. rewrite issued_app.
      repeat split. apply lookup_insert_eq.
    + rewrite (initialize_absent s b Hv).
      simpl fst. simpl snd. rewrite issued_app.
      repeat split. apply lookup_insert_eq.
  - intros s0 fresh Hfresh.
    destruct (toggleTheme_stores s0 b) as (Hstored & _ & Htheme).
    rewrite <- Hfresh in Hstored.
    rewrite (initialize_saved initialState fresh _ Hstored
               (isTheme_truthy _ Htheme)).
    simpl fst. simpl snd. rewrite issued_app. split; reflexivity.
Qed.

Lemma C6_initialize_witness :
  (theme (fst (initialize initialState
                 (mkBrowser (<[THEME_KEY := str "dark"]> ∅) false ∅ [])))
     = str "dark" /\
   issued (mkBrowser (<[THEME_KEY := str "dark"]> ∅) false ∅ [])
          (snd (initialize initialState
                  (mkBrowser (<[THEME_KEY := str "dark"]> ∅) false ∅ [])))
     = [GetItem (str "theme"); SetAttribute (str "data-theme") (str "dark")]) /\
  (theme (fst (initialize initialState (mkBrowser ∅ false ∅ []))) = str "light" /\
   documentElement (snd (initialize initialState (mkBrowser ∅ false ∅ [])))
     !! str "data-theme" = Some (str "light") /\
   issued (mkBrowser ∅ false ∅ [])
          (snd (initialize initialState (mkBrowser ∅ false ∅ [])))
     = [GetItem (str "theme"); Matches (str "(prefers-color-scheme: dark)");
        SetAttribute (str "data-theme") (str "light")]) /\
  (theme (fst (initialize initialState (mkBrowser ∅ true ∅ []))) = str "dark" /\
   documentElement (snd (initialize initialState (mkBrowser ∅ true ∅ [])))
     !! str "data-theme" = Some (str "dark")).
Proof.
  assert (Hstored : slotTyped
            (mkBrowser (<[THEME_KEY := str "dark"]> ∅) false ∅ [])).
  { unfold slotTyped. vm_compute. right. reflexivity. }
  assert (Habsent : forall dark, slotTyped (mkBrowser ∅ dark ∅ [])).
  { intros dark. exact I. }
  split; [|split].
  - destruct (C6_initialize initialState _ Hstored) as (_ & _ & Hcase & _).
    change (localStorage (mkBrowser (<[THEME_KEY := str "dark"]> ∅) false ∅ [])
              !! THEME_KEY)
      with (Some (str "dark")) in Hcase.
    destruct Hcase as (Ht & _ & Hi). split; assumption.
  - destruct (C6_initialize initialState _ (Habsent false))
      as (_ & _ & Hcase & _).
    change (localStorage (mkBrowser ∅ false ∅ []) !! THEME_KEY)
      with (@None (list N)) in Hcase.
    exact Hcase.
  - destruct (C6_initialize initialState _ (Habsent true))
      as (_ & _ & Hcase & _).
    change (localStorage (mkBrowser ∅ true ∅ []) !! THEME_KEY)
      with (@None (list N)) in Hcase.
    destruct Hcase as (Ht & Hd & _). split; assumption.
Defined.

End ThemeFacts.

Section SystemChangeFacts.

Import ThemeToggle.

Lemma handleChange_absent (dark : bool) (s : State) (b : Browser) :
  localStorage b !! THEME_KEY = None ->
  handleChange dark s b =
  (setTheme (themeOf dark) s,
   mkBrowser (localStorage b) (prefersDark b)
             (<[DATA_THEME := themeOf dark]> (documentElement b))
             (calls b ++ [GetItem THEME_KEY;
                          SetAttribute DATA_THEME (themeOf dark)])).
Proof.
  intros Hv. unfold handleChange, mbind, IO_bind, getItem. rewrite Hv.
  unfold setAttribute, record, mret, IO_ret. simpl.
  rewrite <- app_assoc. reflexivity.
Qed.

(** With a non-empty stored value the listener only reads the storage. *)
Lemma handleChange_saved (dark : bool) (s : State) (b : Browser) (v : jsstring) :
  localStorage b !! THEME_KEY = Some v -> truthy v = true ->
  handleChange dark s b =
  (s, mkBrowser (localStorage b) (prefersDark b) (documentElement b)
                (calls b ++ [GetItem THEME_KEY])).
Proof.
  intros Hv Ht. unfold handleChange, mbind, IO_bind, getItem. rewrite Hv.
  simpl. rewrite Ht. reflexivity.
Qed.

(** Once a theme is stored, no sequence of system changes alters the
    theme, the root attribute or the storage. *)
Lemma systemChanges_saved (signals : list bool) (s : State) (b : Browser)
      (v : jsstring) :
  localStorage b !! THEME_KEY = Some v -> truthy v = true ->
  fst (systemChanges signals s b) = s /\
  documentElement (snd (systemChanges signals s b)) = documentElement b /\
  localStorage (snd (systemChanges signals s b)) = localStorage b.
Proof.
  revert b. induction signals as [|dark rest IH]; intros b Hv Ht.
  - repeat split.
  - change (systemChanges (dark :: rest) s b)
      with (let '(s', b') := systemChange dark s b in systemChanges rest s' b').
    unfold systemChange.
    rewrite (handleChange_saved dark s _ v) by assumption.
    apply (IH (mkBrowser (localStorage b) dark (documentElement b)
                         (calls b ++ [GetItem THEME_KEY]))); assumption.
Qed.

(** C7. The listener for system colour scheme changes sets the theme and
    the root attribute to the new system value exactly when no theme is
    stored, and otherwise changes neither. After a [toggleTheme], which
    stores its choice, any sequence of system changes leaves the theme and
    the attribute as the toggle set them. *)
Theorem C7_system_change (dark : bool) (s : State) (b : Browser) :
  slotTyped b ->
  (In (SetAttribute DATA_THEME (if dark then str "dark" else str "light"))
      (issued b (snd (handleChange dark s b)))
   <-> localStorage b !! THEME_KEY = None) /\
  (localStorage b !! THEME_KEY = None ->
     theme (fst (handleChange dark s b))
       = (if dark then str "dark" else str "light") /\
     documentElement (snd (handleChange dark s b)) !! DATA_THEME
       = Some (if dark then str "dark" else str "light") /\
     localStorage (snd (handleChange dark s b)) = localStorage b) /\
  (localStorage b !! THEME_KEY <> None ->
     fst (handleChange dark s b) = s /\
     documentElement (snd (handleChange dark s b)) = documentElement b /\
     localStorage (snd (handleChange dark s b)) = localStorage b /\
     issued b (snd (handleChange dark s b)) = [GetItem THEME_KEY]) /\
  (forall signals : list bool,
     theme (fst (systemChanges signals (fst (toggleTheme s b))
                   (snd (toggleTheme s b))))
       = theme (fst (toggleTheme s b)) /\
     documentElement (snd (systemChanges signals (fst (toggleTheme s b))
                             (snd (toggleTheme s b)))) !! DATA_THEME
       = Some (theme (fst (toggleTheme s b)))).
Proof.
  intros Htyped. unfold slotTyped in Htyped.
  split; [|split; [|split]].
  - destruct (localStorage b !! THEME_KEY) as [v|] eqn:Hv.
    + rewrite (handleChange_saved dark s b v Hv (isTheme_truthy v Htyped)).
      simpl snd. rewrite issued_app. split; [|discriminate].
      intros [Hin|[]]. discriminate Hin.
    + rewrite (handleChange_absent dark s b Hv).
      simpl snd. rewrite issued_app. split; [reflexivity|].
      intros _. right. left. reflexivity.
  - intros Hv. rewrite (handleChange_absent dark s b Hv).
    repeat split. apply lookup_insert_eq.
  - intros Hsome.
    destruct (localStorage b !! THEME_KEY) as [v|] eqn:Hv; [|congruence].
    rewrite (handleChange_saved dark s b v Hv (isTheme_truthy v Htyped)).
    simpl fst. simpl snd. rewrite issued_app. repeat split.
  - intros signals.
    destruct (toggleTheme_stores s b) as (Hstored & Hattr & Htheme).
    destruct (systemChanges_saved signals (fst (toggleTheme s b)) _ _ Hstored
                (isTheme_truthy _ Htheme)) as (Hs & Hdoc & _).
    rewrite Hs, Hdoc. split; [reflexivity | exact Hattr].
Qed.

Lemma C7_system_change_witness :
  (theme (fst (handleChange true (mkState (str "light") true)
                 (mkBrowser ∅ false ∅ []))) = str "dark" /\
   documentElement (snd (handleChange true (mkState (str "light") true)
                           (mkBrowser ∅ false ∅ [])))
     !! str "data-theme" = Some (str "dark")) /\
  (theme (fst (handleChange false (mkState (str "dark") true)
                 (mkBrowser ∅ true ∅ []))) = str "light" /\
   documentElement (snd (handleChange false (mkState (str "dark") true)
                           (mkBrowser ∅ true ∅ [])))
     !! str "data-theme" = Some (str "light")) /\
  theme (fst (handleChange true initialState
                (mkBrowser (<[THEME_KEY := str "light"]> ∅) false ∅ [])))
    = str "light".
Proof.
  assert (Habsent : forall dark, slotTyped (mkBrowser ∅ dark ∅ [])).
  { intros dark. exact I. }
  assert (Hnone : forall dark,
             localStorage (mkBrowser ∅ dark ∅ []) !! THEME_KEY = None).
  { intros dark. apply lookup_empty. }
  split; [|split].
  - destruct (C7_system_change true (mkState (str "light") true) _
                (Habsent false)) as (_ & Hadopt & _).
    destruct (Hadopt (Hnone false)) as (Ht & Hd & _). split; assumption.
  - destruct (C7_system_change false (mkState (str "dark") true) _
                (Habsent true)) as (_ & Hadopt & _).
    destruct (Hadopt (Hnone true)) as (Ht & Hd & _). split; assumption.
  - assert (Htyped : slotTyped
              (mkBrowser (<[THEME_KEY := str "light"]> ∅) false ∅ [])).
    { unfold slotTyped. vm_compute. left. reflexivity. }
    destruct (C7_system_change true initialState _ Htyped) as (_ & _ & Hsaved & _).
    destruct Hsaved as (Hs & _).
    + vm_compute. discriminate.
    + rewrite Hs. reflexivity.
Defined.

End SystemChangeFacts.

(** ** Worked examples *)

Section Examples.

Import Contact.

(** A two-letter name passes; "not-an-email" and "short" do not. *)
Example submit_two_errors :
  exists w,
    run initialWorld
        (fillIn (mkFormData (str "Jo") (str "not-an-email") (str "short"))
         ++ [Submit]) = Some w /\
    status (ui w) = idle /\ timers w = [] /\
    errorText (ui w) name_input = None /\
    errorText (ui w) email_input = Some (str "Please enter a valid email address") /\
    errorText (ui w) message_input
      = Some (str "Message must be at least 10 characters").
Proof. eexists. split; [vm_compute; reflexivity|]. repeat split. Qed.

(** Whitespace around an address is not trimmed before the pattern is
    tested, and a dot may open the domain part. *)
Example email_examples :
  validateField (str "email") (str " a@b.com")
    = Some (str "Please enter a valid email address") /\
  validateField (str "email") (str "a@b.")
    = Some (str "Please enter a valid email address") /\
  validateField (str "email") (str "a@b@c.d")
    = Some (str "Please enter a valid email address") /\
  validateField (str "email") (str "a@.b.c") = None /\
  validateField (str "email") (str "   ") = Some (str "Email is required").
Proof. repeat split; vm_compute; reflexivity. Qed.

(** A stored empty string does not pass [if (savedTheme)]: the system
    preference is used, as when nothing is stored. *)
Example initialize_empty_string :
  ThemeToggle.theme
    (fst (ThemeToggle.initialize ThemeToggle.initialState
            (ThemeToggle.mkBrowser (<[ThemeToggle.THEME_KEY := str ""]> ∅)
                                   true ∅ [])))
  = str "dark".
Proof. vm_compute. reflexivity. Qed.

End Examples.

(** * Further properties of the components *)

(** ** The change and blur handlers *)

Section HandlerFacts.

Import Contact Rules.

Lemma target_name_inj (f g : field) : target_name f = target_name g -> f = g.
Proof.
  intros H. apply (f_equal field_named) in H.
  rewrite !field_named_target in H. congruence.
Qed.

Lemma target_name_ne (f g : field) : g <> f -> target_name f <> target_name g.
Proof. intros Hne H. apply Hne. symmetry. apply target_name_inj, H. Qed.

(** The alert depends on the two entries of the field only. *)
Lemma errorText_ext (s s' : State) (f : field) :
  errors s' !! target_name f = errors s !! target_name f ->
  touched s' !! target_name f = touched s !! target_name f ->
  errorText s' f = errorText s f.
Proof. unfold errorText, isTouched. intros -> ->. reflexivity. Qed.

(** A touched field whose entry is the verdict on [v] shows that verdict. *)
Lemma errorText_validated (s : State) (f : field) (v : jsstring) :
  errors s !! target_name f = Some (validateField (target_name f) v) ->
  isTouched (touched s) (target_name f) = true ->
  errorText s f = validateField (target_name f) v.
Proof.
  unfold errorText. intros -> ->.
  pose proof (validateField_truthy (target_name f) v) as Ht.
  destruct (validateField (target_name f) v) as [msg|]; [|reflexivity].
  simpl in Ht. rewrite (proj2 Ht) by discriminate. reflexivity.
Qed.

(** Leaving a control marks its field as touched and puts the alert under
    it in line with the value: the message of [validateField], or no
    alert when the value is valid. The record, the status and the entries
    and alerts of the other two fields stay as they are. *)
Theorem handleBlur_shows_verdict (s : State) (f : field) (v : jsstring) :
  errorText (handleBlur f v s) f = validateField (target_name f) v /\
  isTouched (touched (handleBlur f v s)) (target_name f) = true /\
  formData (handleBlur f v s) = formData s /\
  status (handleBlur f v s) = status s /\
  (forall g, g <> f ->
     errors (handleBlur f v s) !! target_name g = errors s !! target_name g /\
     touched (handleBlur f v s) !! target_name g = touched s !! target_name g /\
     errorText (handleBlur f v s) g = errorText s g).
Proof.
  assert (Ht : isTouched (touched (handleBlur f v s)) (target_name f) = true).
  { unfold isTouched, handleBlur. simpl. rewrite lookup_insert_eq. reflexivity. }
  split; [|split; [exact Ht|split; [reflexivity|split; [reflexivity|]]]].
  - apply errorText_validated; [|exact Ht].
    unfold handleBlur. simpl. apply lookup_insert_eq.
  - intros g Hg.
    assert (He : errors (handleBlur f v s) !! target_name g
                 = errors s !! target_name g).
    { unfold handleBlur. simpl. apply lookup_insert_ne, target_name_ne, Hg. }
    assert (Hto : touched (handleBlur f v s) !! target_name g
                  = touched s !! target_name g).
    { unfold handleBlur. simpl. apply lookup_insert_ne, target_name_ne, Hg. }
    repeat split; [exact He | exact Hto | apply errorText_ext; assumption].
Qed.

(** A change stores the typed value in its field of the record and leaves
    the two other fields, the touched map and the status alone. Feedback
    is live only after the first blur: if the field is touched, the alert
    under it becomes the verdict on the new value; if it is not, the error
    map is unchanged and no alert is under the field. The alerts of the
    other fields never change. *)
Theorem handleChange_feedback (s : State) (f : field) (v : jsstring) :
  FormData_get (formData (handleChange f v s)) f = v /\
  (forall g, g <> f ->
     FormData_get (formData (handleChange f v s)) g = FormData_get (formData s) g /\
     errorText (handleChange f v s) g = errorText s g) /\
  touched (handleChange f v s) = touched s /\
  status (handleChange f v s) = status s /\
  (if isTouched (touched s) (target_name f)
   then errorText (handleChange f v s) f = validateField (target_name f) v
   else errors (handleChange f v s) = errors s /\
        errorText (handleChange f v s) f = None).
Proof.
  unfold handleChange.
  destruct (isTouched (touched s) (target_name f)) eqn:Ht.
  - split; [destruct f; reflexivity|]. split; [|split; [reflexivity|split; [reflexivity|]]].
    + intros g Hg. split.
      * destruct f, g; try reflexivity; exfalso; apply Hg; reflexivity.
      * apply errorText_ext; [|reflexivity].
        simpl. apply lookup_insert_ne, target_name_ne, Hg.
    + apply errorText_validated; [|exact Ht]. simpl. apply lookup_insert_eq.
  - split; [destruct f; reflexivity|]. split; [|split; [reflexivity|split; [reflexivity|]]].
    + intros g Hg. split; [|reflexivity].
      destruct f, g; try reflexivity; exfalso; apply Hg; reflexivity.
    + split; [reflexivity|]. unfold errorText. simpl. rewrite Ht.
      destruct (errors s !! target_name f) as [[m|]|]; try reflexivity.
      rewrite andb_false_r. reflexivity.
Qed.

End HandlerFacts.

(** ** Whitespace and the address pattern *)

Section WhitespaceFacts.

Import RegExp Contact Rules.

(** Whitespace around a value does not change what [trim] returns. *)
Lemma trim_surrounded (pre v post : jsstring) :
  Forall space pre -> Forall space post -> trim (pre ++ v ++ post) = trim v.
Proof.
  intros Hpre Hpost. symmetry. apply trimmed_unique.
  destruct (trim_trimmed v) as (p & q & Hv & Hp & Hq & Hhead & Hlast).
  exists (pre ++ p), (q ++ post). repeat split.
  - rewrite Hv at 1. rewrite <- !app_assoc. reflexivity.
  - apply Forall_app. split; assumption.
  - apply Forall_app. split; assumption.
  - exact Hhead.
  - exact Hlast.
Qed.

(** The verdict on a name or on a message does not depend on whitespace
    before and after the value. *)
Theorem validateField_ignores_outer_space (pre v post : jsstring) :
  Forall space pre -> Forall space post ->
  validateField (str "name") (pre ++ v ++ post) = validateField (str "name") v /\
  validateField (str "message") (pre ++ v ++ post)
    = validateField (str "message") v.
Proof.
  intros Hpre Hpost.
  rewrite !validateField_name, !validateField_message,
    (trim_surrounded pre v post Hpre Hpost).
  split; reflexivity.
Qed.

Lemma validateField_ignores_outer_space_witness :
  validateField (str "name") (str "  Jo ") = None /\
  validateField (str "message") (str "  Jo ")
    = Some (str "Message must be at least 10 characters").
Proof.
  assert (Hpre : Forall space (str "  ")).
  { repeat constructor. }
  assert (Hpost : Forall space (str " ")).
  { repeat constructor. }
  destruct (validateField_ignores_outer_space (str "  ") (str "Jo") (str " ")
              Hpre Hpost) as (Hn & Hm).
  split.
  - change (str "  Jo ") with (str "  " ++ str "Jo" ++ str " ").
    rewrite Hn. vm_compute. reflexivity.
  - change (str "  Jo ") with (str "  " ++ str "Jo" ++ str " ").
    rewrite Hm. vm_compute. reflexivity.
Defined.

Lemma addressPart_no_space (p : jsstring) :
  addressPart p -> Forall (fun c => is_space c = false /\ c <> AT) p.
Proof.
  intros [_ Hall]. eapply Forall_impl; [exact Hall|].
  intros c [Hs Hat]. split; [|exact Hat].
  unfold space in Hs. destruct (is_space c); congruence.
Qed.

Lemma emailShape_no_space (v : jsstring) :
  emailShape v -> Forall (fun c => is_space c = false) v.
Proof.
  intros (local & domain & tld & -> & Hl & Hd & Ht).
  apply addressPart_no_space in Hl, Hd, Ht.
  repeat (apply Forall_app; split);
    try (eapply Forall_impl; [eassumption|]; intros c [Hc _]; exact Hc);
    repeat constructor.
Qed.

(** An address is tested as typed, without trimming: a value that is not
    blank and contains whitespace anywhere, also at either end, gets
    "Please enter a valid email address". *)
Theorem validateField_email_rejects_space (v : jsstring) (c : N) :
  In c v -> is_space c = true -> truthy (trim v) = true ->
  validateField (str "email") v
    = Some (str "Please enter a valid email address").
Proof.
  intros Hin Hc Hnb. rewrite validateField_email, Hnb. simpl.
  destruct (isValidEmail v) eqn:Hvalid; [|reflexivity].
  apply isValidEmail_shape, emailShape_no_space in Hvalid.
  rewrite Forall_forall in Hvalid.
  apply list_elem_of_In, Hvalid in Hin. congruence.
Qed.

Lemma validateField_email_rejects_space_witness :
  validateField (str "email") (str "jo@example.com ")
    = Some (str "Please enter a valid email address").
Proof.
  apply (validateField_email_rejects_space (str "jo@example.com ") 32).
  - vm_compute. tauto.
  - reflexivity.
  - reflexivity.
Defined.

Lemma count_occ_addressPart (p : jsstring) :
  addressPart p -> count_occ N.eq_dec p AT = 0%nat.
Proof.
  intros Hp. apply addressPart_no_space in Hp.
  apply count_occ_not_In. intros Hin.
  rewrite Forall_forall in Hp. apply list_elem_of_In, Hp in Hin.
  destruct Hin as [_ Hne]. congruence.
Qed.

Lemma addressPart_length (p : jsstring) :
  addressPart p -> (1 <= List.length p)%nat.
Proof. intros [Hne _]. destruct p; [congruence | simpl; lia]. Qed.

(** What every accepted address has: no whitespace, exactly one [@], and
    at least five characters. *)
Theorem isValidEmail_necessary (v : jsstring) :
  isValidEmail v = true ->
  Forall (fun c => is_space c = false) v /\
  count_occ N.eq_dec v AT = 1%nat /\
  (5 <= List.length v)%nat.
Proof.
  intros Hvalid. apply isValidEmail_shape in Hvalid.
  split; [apply emailShape_no_space, Hvalid|].
  destruct Hvalid as (local & domain & tld & -> & Hl & Hd & Ht).
  split.
  - rewrite !count_occ_app, (count_occ_addressPart local Hl),
      (count_occ_addressPart domain Hd), (count_occ_addressPart tld Ht).
    reflexivity.
  - rewrite !length_app.
    apply addressPart_length in Hl, Hd, Ht. simpl. lia.
Qed.

Lemma isValidEmail_necessary_witness :
  count_occ N.eq_dec (str "a@b.c") AT = 1%nat /\
  (5 <= List.length (str "a@b.c"))%nat.
Proof.
  destruct (isValidEmail_necessary (str "a@b.c") eq_refl) as (_ & Hc & Hl).
  split; assumption.
Defined.

End WhitespaceFacts.

(** ** The error map is never stale *)

Section ErrorsCurrentFacts.

Import Contact Rules Invariants.

Lemma field_same_or_not (g f : field) : g = f \/ g <> f.
Proof. destruct g, f; (left; reflexivity) || (right; discriminate). Qed.

Lemma FormData_get_set_eq (fd : FormData) (f : field) (v : jsstring) :
  FormData_get (FormData_set fd f v) f = v.
Proof. destruct f; reflexivity. Qed.

Lemma FormData_get_set_ne (fd : FormData) (f g : field) (v : jsstring) :
  g <> f -> FormData_get (FormData_set fd f v) g = FormData_get fd g.
Proof. intros Hg. destruct f, g; try reflexivity; exfalso; apply Hg; reflexivity. Qed.

Lemma errorsCurrent_validated (s : State) (fd : FormData) (st : FormStatus) :
  errorsCurrent
    (mkState fd (foldl (validateForm_visit fd) ∅ FormData_keys) allTouched st).
Proof.
  intros f e. cbn [errors formData touched].
  rewrite newErrors_lookup, field_named_target.
  intros He. split; [|apply allTouched_isTouched].
  destruct (validateField _ _); simpl in He; congruence.
Qed.

Lemma errorsCurrent_handleChange (s : State) (f : field) (v : jsstring) :
  errorsCurrent s -> errorsCurrent (handleChange f v s).
Proof.
  intros Hinv g e. unfold handleChange.
  destruct (isTouched (touched s) (target_name f)) eqn:Ht; simpl.
  - destruct (field_same_or_not g f) as [->|Hg].
    + rewrite lookup_insert_eq, FormData_get_set_eq. intros [= <-].
      split; [reflexivity | exact Ht].
    + rewrite lookup_insert_ne by (apply target_name_ne, Hg).
      rewrite FormData_get_set_ne by exact Hg. apply Hinv.
  - intros He. destruct (Hinv g e He) as [Hval Htg].
    destruct (field_same_or_not g f) as [->|Hg]; [congruence|].
    rewrite FormData_get_set_ne by exact Hg. split; assumption.
Qed.

(** A blurred control reports the value the record holds for it. *)
Lemma errorsCurrent_handleBlur (s : State) (f : field) :
  errorsCurrent s ->
  errorsCurrent (handleBlur f (FormData_get (formData s) f) s).
Proof.
  intros Hinv g e. unfold handleBlur, isTouched. simpl.
  destruct (field_same_or_not g f) as [->|Hg].
  - rewrite !lookup_insert_eq. intros [= <-]. split; reflexivity.
  - rewrite !lookup_insert_ne by (apply target_name_ne, Hg). apply Hinv.
Qed.

Lemma errorsCurrent_handleSubmit (w : World) :
  errorsCurrent (ui (handleSubmit w)).
Proof.
  unfold handleSubmit. rewrite validateForm_setTouched.
  destruct (snd (validateForm (ui w)));
    apply (errorsCurrent_validated (ui w)).
Qed.

Lemma errorsCurrent_step (w w' : World) (e : event) :
  errorsCurrent (ui w) -> step w e = Some w' -> errorsCurrent (ui w').
Proof.
  intros Hinv. destruct e as [f value|f| |d|]; simpl.
  - intros [= <-]. destruct (disabled (ui w)); [exact Hinv|].
    apply errorsCurrent_handleChange, Hinv.
  - intros [= <-]. apply errorsCurrent_handleBlur, Hinv.
  - intros [= <-]. destruct (disabled (ui w)); [exact Hinv|].
    apply errorsCurrent_handleSubmit.
  - intros [= <-]. exact Hinv.
  - destruct (timers w) as [|[due cb] rest]; [discriminate|].
    destruct (due <=? clock w); [|discriminate].
    intros [= <-]. destruct cb.
    + intros f e.
      change (errors (ui (run_callback resolve_send
                            (mkWorld (ui w) (clock w) rest))))
        with (∅ : FormErrors).
      rewrite lookup_empty. discriminate.
    + exact Hinv.
Qed.

Lemma errorText_Some_entry (s : State) (f : field) (msg : jsstring) :
  errorText s f = Some msg -> errors s !! target_name f = Some (Some msg).
Proof.
  unfold errorText.
  destruct (errors s !! target_name f) as [[m|]|]; try discriminate.
  destruct (truthy m && isTouched (touched s) (target_name f));
    [|discriminate].
  intros [= ->]. reflexivity.
Qed.

Lemma errorsCurrent_run (evs : list event) (w w' : World) :
  errorsCurrent (ui w) -> run w evs = Some w' -> errorsCurrent (ui w').
Proof.
  revert w. induction evs as [|e evs IH]; intros w Hinv; simpl.
  - intros [= <-]. exact Hinv.
  - destruct (step w e) as [w1|] eqn:Hstep; [|discriminate].
    apply IH. eapply errorsCurrent_step; eassumption.
Qed.

(** In every state the form can reach, an entry of the error map is the
    verdict on the value the record now holds for that field, and the
    field is touched. So an alert on the screen is never out of date: it
    is the message [validateField] gives for the current value. *)
Theorem errors_never_stale (w : World) (f : field) :
  reachable w ->
  (forall e, errors (ui w) !! target_name f = Some e ->
     e = validateField (target_name f) (FormData_get (formData (ui w)) f) /\
     isTouched (touched (ui w)) (target_name f) = true) /\
  (forall msg, errorText (ui w) f = Some msg ->
     validateField (target_name f) (FormData_get (formData (ui w)) f) = Some msg).
Proof.
  intros [evs Hrun].
  assert (Hinv : errorsCurrent (ui w)).
  { apply (errorsCurrent_run evs initialWorld w); [|exact Hrun].
    intros g e. simpl. rewrite lookup_empty. discriminate. }
  split; [intros e; apply Hinv|].
  intros msg Hshown.
  apply errorText_Some_entry in Hshown.
  destruct (Hinv f (Some msg) Hshown) as [Hval _]. congruence.
Qed.

End ErrorsCurrentFacts.

Lemma errors_never_stale_witness :
  exists w,
    Contact.run Contact.initialWorld
      [Contact.Blur Contact.name_input;
       Contact.Change Contact.name_input (str "J")] = Some w /\
    Contact.validateField (str "name")
      (Contact.FormData_get (Contact.formData (Contact.ui w)) Contact.name_input)
    = Some (str "Name must be at least 2 characters").
Proof.
  eexists. split; [vm_compute; reflexivity|].
  refine (proj2 (errors_never_stale _ Contact.name_input _) _ _).
  - exists [Contact.Blur Contact.name_input;
            Contact.Change Contact.name_input (str "J")].
    vm_compute. reflexivity.
  - vm_compute. reflexivity.
Defined.

(** ** Pending timers *)

Section TimerFacts.

Import Contact Rules Invariants.

Lemma In_enqueue (t : N * callback) (due : N) (cb : callback)
      (q : list (N * callback)) :
  In t (enqueue due cb q) <-> t = (due, cb) \/ In t q.
Proof.
  induction q as [|[d c] q IH]; simpl.
  - intuition congruence.
  - destruct (due <? d); simpl; [intuition congruence|].
    rewrite IH. intuition congruence.
Qed.

Lemma Forall_enqueue (P : N * callback -> Prop) (due : N) (cb : callback)
      (q : list (N * callback)) :
  P (due, cb) -> Forall P q -> Forall P (enqueue due cb q).
Proof.
  intros Hnew Hq. apply Forall_forall. intros t Ht.
  apply list_elem_of_In, In_enqueue in Ht as [-> | Ht]; [exact Hnew|].
  rewrite Forall_forall in Hq. apply Hq, list_elem_of_In, Ht.
Qed.

(** Setting a timer keeps the queue in the order of the due times. *)
Lemma dueOrdered_enqueue (due : N) (cb : callback) (q : list (N * callback)) :
  dueOrdered q -> dueOrdered (enqueue due cb q).
Proof.
  induction q as [|[d c] q IH]; simpl.
  - intros _. split; [constructor | exact I].
  - intros [Hhead Hq]. destruct (due <? d) eqn:Hlt.
    + apply N.ltb_lt in Hlt. simpl. repeat split; try assumption.
      constructor; [simpl; lia|].
      eapply Forall_impl; [exact Hhead|]. simpl. intros u Hu. lia.
    + apply N.ltb_ge in Hlt. simpl. split; [|apply IH, Hq].
      apply Forall_enqueue; [simpl; lia | exact Hhead].
Qed.

Lemma timersBounded_setTimeout (cb : callback) (w : World) :
  dueOrdered (timers w) ->
  Forall (fun t => fst t <= clock w + delayOf (snd t)) (timers w) ->
  dueOrdered (timers (setTimeout cb (delayOf cb) w)) /\
  Forall (fun t => fst t <= clock w + delayOf (snd t))
         (timers (setTimeout cb (delayOf cb) w)).
Proof.
  intros Hord Hb. unfold setTimeout. simpl timers. split.
  - apply dueOrdered_enqueue, Hord.
  - apply Forall_enqueue; [simpl; lia | exact Hb].
Qed.

Lemma timersBounded_step (w w' : World) (e : event) :
  timersBounded w -> step w e = Some w' -> timersBounded w'.
Proof.
  intros (Hord & Hb & Hsub). destruct e as [f value|f| |d|]; simpl.
  - intros [= <-]. destruct (disabled (ui w)); [repeat split; assumption|].
    repeat split; try assumption.
    unfold handleChange. destruct (isTouched _ _); exact Hsub.
  - intros [= <-]. repeat split; assumption.
  - intros [= <-]. destruct (disabled (ui w)); [repeat split; assumption|].
    unfold handleSubmit. rewrite validateForm_setTouched.
    destruct (snd (validateForm (ui w))); simpl negb; cbv iota.
    + destruct (timersBounded_setTimeout resolve_send
                  (render (setStatus submitting
                     (setTouched allTouched (fst (validateForm (ui w))))) w)
                  Hord Hb) as [Hord' Hb'].
      repeat split; [exact Hord' | exact Hb' |].
      intros _. exists (clock w + SEND_DELAY).
      unfold setTimeout. simpl timers. apply In_enqueue. left. reflexivity.
    + repeat split; assumption.
  - intros [= <-]. repeat split; [exact Hord | | exact Hsub].
    eapply Forall_impl; [exact Hb|]. simpl. intros t Ht. lia.
  - destruct (timers w) as [|[due cb] rest] eqn:Hq; [discriminate|].
    destruct (due <=? clock w); [|discriminate].
    intros [= <-]. destruct Hord as [_ Hord].
    apply Forall_cons in Hb as [_ Hb].
    destruct cb.
    + destruct (timersBounded_setTimeout reset_status
                  (mkWorld (setErrors ∅ (setTouched ∅ (setFormData emptyForm
                              (setStatus success (ui w))))) (clock w) rest)
                  Hord Hb) as [Hord' Hb'].
      repeat split; [exact Hord' | exact Hb' | discriminate].
    + repeat split; [exact Hord | exact Hb | discriminate].
Qed.

Lemma timersBounded_run (evs : list event) (w w' : World) :
  timersBounded w -> run w evs = Some w' -> timersBounded w'.
Proof.
  revert w. induction evs as [|e evs IH]; intros w Hinv; simpl.
  - intros [= <-]. exact Hinv.
  - destruct (step w e) as [w1|] eqn:Hstep; [|discriminate].
    apply IH. eapply timersBounded_step; eassumption.
Qed.

Lemma inFlight_pending (w : World) (due : N) :
  In (due, resolve_send) (timers w) -> (1 <= inFlight w)%nat.
Proof.
  intros Hin. unfold inFlight.
  assert (Hf : (due, resolve_send)
               ∈ filter (fun t => snd t = resolve_send) (timers w)).
  { apply list_elem_of_filter. split; [reflexivity | apply list_elem_of_In, Hin]. }
  destruct (filter _ (timers w)); [inversion Hf | simpl; lia].
Qed.

(** The form is never stuck in the submitting state. In every reachable
    state with that status a send is pending, the first timer of the
    queue is due within 1500 ms, and the callback of that timer, whichever
    it is, ends the submitting state. *)
Theorem submitting_ends (w : World) :
  reachable w -> status (ui w) = submitting ->
  (1 <= inFlight w)%nat /\
  exists w',
    run w [Elapse SEND_DELAY; Timeout] = Some w' /\
    status (ui w') <> submitting.
Proof.
  intros [evs Hrun] Hs.
  assert (Hinv : timersBounded w).
  { apply (timersBounded_run evs initialWorld w); [|exact Hrun].
    repeat split; [constructor | discriminate]. }
  destruct Hinv as (Hord & Hb & Hsub).
  destruct (Hsub Hs) as [due Hin].
  split; [apply (inFlight_pending w due Hin)|].
  assert (Hdue : due <= clock w + SEND_DELAY).
  { rewrite Forall_forall in Hb. apply (Hb (due, resolve_send)).
    apply list_elem_of_In, Hin. }
  cbn [run step clock timers ui].
  destruct (timers w) as [|[d0 cb0] rest]; [contradiction|].
  assert (Hhead : d0 <= due).
  { destruct Hin as [[= -> _] | Hin]; [lia|].
    destruct Hord as [Hhead _]. rewrite Forall_forall in Hhead.
    apply (Hhead (due, resolve_send)), list_elem_of_In, Hin. }
  replace (d0 <=? clock w + SEND_DELAY) with true
    by (symmetry; apply N.leb_le; lia).
  eexists. split; [reflexivity|].
  destruct cb0; simpl; discriminate.
Qed.

Lemma submitting_ends_witness :
  exists w w',
    run initialWorld (fillIn validRecord ++ [Submit]) = Some w /\
    run w [Elapse SEND_DELAY; Timeout] = Some w' /\
    status (ui w') <> submitting.
Proof.
  eexists. 
  assert (Hrun : run initialWorld (fillIn validRecord ++ [Submit])
                 = Some (mkWorld
                           (mkState validRecord ∅ allTouched submitting)
                           0 [(1500, resolve_send)])).
  { vm_compute. reflexivity. }
  destruct (submitting_ends _ (ex_intro _ _ Hrun) eq_refl)
    as (_ & w' & Hw' & Hs).
  exists w'. split; [exact Hrun|]. split; assumption.
Defined.

End TimerFacts.

(** ** The submit handler, whatever the status *)

Section SubmitHandlerFacts.

Import Contact Rules Invariants.

(** With an invalid record [handleSubmit] returns before it touches the
    status: whatever the status is (idle, success, ...), it stays, no
    timer is set and the record is kept; only the touched map and the
    error map change. *)
Theorem handleSubmit_invalid_keeps_status (w : World) :
  ~ valid (formData (ui w)) ->
  status (ui (handleSubmit w)) = status (ui w) /\
  timers (handleSubmit w) = timers w /\
  formData (ui (handleSubmit w)) = formData (ui w) /\
  touched (ui (handleSubmit w)) = allTouched.
Proof.
  intros Hinv. rewrite (handleSubmit_invalid w Hinv). repeat split.
Qed.

Lemma handleSubmit_invalid_keeps_status_witness :
  status (ui (handleSubmit (mkWorld (mkState emptyForm ∅ ∅ success) 1500
                              [(6500, reset_status)]))) = success /\
  errorText (ui (handleSubmit (mkWorld (mkState emptyForm ∅ ∅ success) 1500
                                 [(6500, reset_status)]))) name_input
    = Some (str "Name is required").
Proof.
  assert (Hinv : ~ valid emptyForm).
  { intros Hv. specialize (Hv name_input).
    apply validateField_None_iff in Hv. vm_compute in Hv. discriminate. }
  destruct (handleSubmit_invalid_keeps_status
              (mkWorld (mkState emptyForm ∅ ∅ success) 1500
                       [(6500, reset_status)]) Hinv) as (Hs & _).
  split; [exact Hs | vm_compute; reflexivity].
Defined.

(** [handleSubmit] itself does not look at the status: called with a valid
    record it always sets the status to submitting, empties the error map
    and starts one more send, also when a send is already pending. Only
    the disabled button keeps it from being called. *)
Theorem handleSubmit_valid_unguarded (w : World) :
  valid (formData (ui w)) ->
  status (ui (handleSubmit w)) = submitting /\
  inFlight (handleSubmit w) = S (inFlight w) /\
  errors (ui (handleSubmit w)) = ∅ /\
  formData (ui (handleSubmit w)) = formData (ui w).
Proof.
  intros Hv. rewrite (handleSubmit_valid w Hv).
  split; [reflexivity|]. split; [|split; [|reflexivity]].
  - apply (inFlight_enqueue_send _
      (render (setStatus submitting
                 (setTouched allTouched (fst (validateForm (ui w))))) w)).
  - apply newErrors_empty_iff, Hv.
Qed.

Lemma handleSubmit_valid_unguarded_witness :
  inFlight (handleSubmit (mkWorld (mkState validRecord ∅ ∅ submitting) 100
                            [(1500, resolve_send)])) = 2%nat.
Proof.
  destruct (handleSubmit_valid_unguarded
              (mkWorld (mkState validRecord ∅ ∅ submitting) 100
                       [(1500, resolve_send)]) validRecord_valid)
    as (_ & Hn & _).
  exact Hn.
Defined.

End SubmitHandlerFacts.

(** ** Scroll reveal *)

Section RevealFacts.

Import Contact.

Lemma observerCallback_result (entries : list bool) (r : Reveal) :
  observerCallback entries r =
  if existsb (fun b => b) entries then mkReveal true false else r.
Proof.
  unfold observerCallback. revert r.
  induction entries as [|b entries IH]; intros r; simpl; [reflexivity|].
  rewrite IH. destruct b; simpl; [|reflexivity].
  destruct (existsb _ entries); reflexivity.
Qed.

Lemma notify_step (r : Reveal) (es : list bool) :
  observed r = negb (isVisible r) ->
  isVisible (notify r es) = isVisible r || existsb (fun b => b) es /\
  observed (notify r es) = negb (isVisible (notify r es)).
Proof.
  unfold notify. rewrite observerCallback_result.
  destruct r as [v o]. simpl. intros ->.
  destruct v, (existsb (fun b => b) es); simpl; split; reflexivity.
Qed.

Lemma notify_run (ns : list (list bool)) (r : Reveal) :
  observed r = negb (isVisible r) ->
  isVisible (foldl notify r ns)
    = isVisible r || existsb (existsb (fun b => b)) ns /\
  observed (foldl notify r ns) = negb (isVisible (foldl notify r ns)).
Proof.
  revert r. induction ns as [|es ns IH]; intros r Hr.
  - simpl. rewrite orb_false_r. split; [reflexivity | exact Hr].
  - destruct (notify_step r es Hr) as [Hv Hob].
    destruct (IH (notify r es) Hob) as [Hv' Hob'].
    change (foldl notify r (es :: ns)) with (foldl notify (notify r es) ns).
    split; [|exact Hob'].
    rewrite Hv', Hv. simpl existsb. symmetry. apply orb_assoc.
Qed.

(** The section is revealed once and for all: after the effect has
    mounted the observer, [isVisible] is true exactly when some reported
    entry was intersecting, the section is observed exactly as long as it
    is not visible, and an observer callback never hides a visible
    section. *)
Theorem reveal_once (ns : list (list bool)) :
  isVisible (foldl notify (mountObserver true (mkReveal false false)) ns)
    = existsb (existsb (fun b => b)) ns /\
  observed (foldl notify (mountObserver true (mkReveal false false)) ns)
    = negb (isVisible
              (foldl notify (mountObserver true (mkReveal false false)) ns)) /\
  (forall r es, isVisible r = true -> isVisible (observerCallback es r) = true).
Proof.
  destruct (notify_run ns (mountObserver true (mkReveal false false)) eq_refl)
    as [Hv Hob].
  split; [exact Hv|]. split; [exact Hob|].
  intros r es Hr. rewrite observerCallback_result.
  destruct (existsb _ es); [reflexivity | exact Hr].
Qed.

End RevealFacts.

(** ** Toggling and following the system *)

Section ThemeOperationFacts.

Import ThemeToggle.

(** Whatever the current theme is, [toggleTheme] ends on one of the two
    theme names, different from the current one; it writes that name
    under the key "theme", leaving the rest of the storage alone, and sets
    the root attribute to it. From anything but "light" it goes to
    "light". *)
Theorem toggleTheme_result (s : State) (b : Browser) :
  isTheme (theme (fst (toggleTheme s b))) /\
  theme (fst (toggleTheme s b)) <> theme s /\
  localStorage (snd (toggleTheme s b))
    = <[THEME_KEY := theme (fst (toggleTheme s b))]> (localStorage b) /\
  documentElement (snd (toggleTheme s b)) !! DATA_THEME
    = Some (theme (fst (toggleTheme s b))) /\
  mounted (fst (toggleTheme s b)) = mounted s /\
  (theme s <> str "light" -> theme (fst (toggleTheme s b)) = str "light").
Proof.
  unfold toggleTheme, mbind, IO_bind, setItem, setAttribute, record, mret, IO_ret.
  simpl. rewrite lookup_insert_eq. unfold isTheme.
  case_decide as Hl; repeat split; auto; congruence.
Qed.

(** Two clicks bring a light or dark theme back, in the component and in
    the storage. *)
Theorem toggleTheme_twice (s : State) (b : Browser) :
  isTheme (theme s) ->
  theme (fst (toggleTheme (fst (toggleTheme s b)) (snd (toggleTheme s b))))
    = theme s /\
  localStorage (snd (toggleTheme (fst (toggleTheme s b))
                       (snd (toggleTheme s b)))) !! THEME_KEY
    = Some (theme s).
Proof.
  intros Ht.
  unfold toggleTheme, mbind, IO_bind, setItem, setAttribute, record, mret, IO_ret.
  simpl. rewrite lookup_insert_eq.
  destruct Ht as [-> | ->]; split; reflexivity.
Qed.

Lemma toggleTheme_twice_witness :
  theme (fst (toggleTheme (fst (toggleTheme (mkState (str "dark") true)
                                  (mkBrowser ∅ false ∅ [])))
                (snd (toggleTheme (mkState (str "dark") true)
                        (mkBrowser ∅ false ∅ [])))))
  = str "dark".
Proof.
  destruct (toggleTheme_twice (mkState (str "dark") true)
              (mkBrowser ∅ false ∅ [])) as (Ht & _).
  - right. reflexivity.
  - exact Ht.
Defined.

(** The listener and the mount effect, for any stored value: the theme
    and the root attribute end up equal, and the storage is not written. *)
Lemma initialize_outcome (s : State) (b : Browser) :
  documentElement (snd (initialize s b)) !! DATA_THEME
    = Some (theme (fst (initialize s b))) /\
  mounted (fst (initialize s b)) = true /\
  localStorage (snd (initialize s b)) = localStorage b.
Proof.
  unfold initialize, mbind, IO_bind, getItem.
  destruct (localStorage b !! THEME_KEY) as [[|c v]|];
    unfold matches, setAttribute, record, mret, IO_ret; simpl;
    rewrite lookup_insert_eq; repeat split.
Qed.

Lemma handleChange_outcome (dark : bool) (s : State) (b : Browser) :
  (documentElement b !! DATA_THEME = Some (theme s) ->
   documentElement (snd (handleChange dark s b)) !! DATA_THEME
     = Some (theme (fst (handleChange dark s b)))) /\
  mounted (fst (handleChange dark s b)) = mounted s /\
  localStorage (snd (handleChange dark s b)) = localStorage b.
Proof.
  unfold handleChange, mbind, IO_bind, getItem.
  destruct (negb (truthy_opt (localStorage b !! THEME_KEY)));
    unfold setAttribute, record, mret, IO_ret; simpl.
  - rewrite lookup_insert_eq. repeat split.
  - repeat split. intros H. exact H.
Qed.

Lemma step_outcome (e : event) (s : State) (b : Browser) :
  documentElement b !! DATA_THEME = Some (theme s) -> mounted s = true ->
  documentElement (snd (step e s b)) !! DATA_THEME
    = Some (theme (fst (step e s b))) /\
  mounted (fst (step e s b)) = true.
Proof.
  intros Hsync Hm. destruct e as [|dark]; simpl.
  - unfold render. rewrite Hm. simpl.
    destruct (toggleTheme_stores s b) as (_ & Hattr & _).
    split; [exact Hattr | exact Hm].
  - unfold systemChange.
    destruct (handleChange_outcome dark s
                (mkBrowser (localStorage b) dark (documentElement b) (calls b)))
      as (Hattr & Hmounted & _).
    split; [apply Hattr, Hsync | congruence].
Qed.

Lemma run_outcome (evs : list event) (s : State) (b : Browser) :
  documentElement b !! DATA_THEME = Some (theme s) -> mounted s = true ->
  documentElement (snd (run evs s b)) !! DATA_THEME
    = Some (theme (fst (run evs s b))) /\
  mounted (fst (run evs s b)) = true.
Proof.
  revert s b. induction evs as [|e evs IH]; intros s b Hsync Hm.
  - split; assumption.
  - change (run (e :: evs) s b)
      with (let '(s', b') := step e s b in run evs s' b').
    destruct (step_outcome e s b Hsync Hm) as [Hsync' Hm'].
    destruct (step e s b) as [s' b']. apply IH; assumption.
Qed.

(** After the page has loaded, whatever the storage held and whatever
    clicks and system changes follow, the root attribute [data-theme] is
    the theme the component holds. *)
Theorem session_attribute_in_sync (evs : list event) (b : Browser) :
  documentElement (snd (session evs b)) !! DATA_THEME
    = Some (theme (fst (session evs b))) /\
  mounted (fst (session evs b)) = true.
Proof.
  change (session evs b)
    with (let '(s, b') := initialize initialState b in run evs s b').
  destruct (initialize_outcome initialState b) as (Hsync & Hm & _).
  destruct (initialize initialState b) as [s b'].
  apply run_outcome; assumption.
Qed.

End ThemeOperationFacts.

Section ThemeStorageFacts.

Import ThemeToggle.

Lemma run_without_toggle_storage (evs : list event) (s : State) (b : Browser) :
  ~ In Toggle evs -> localStorage (snd (run evs s b)) = localStorage b.
Proof.
  revert s b. induction evs as [|e evs IH]; intros s b Hno; [reflexivity|].
  change (run (e :: evs) s b)
    with (let '(s', b') := step e s b in run evs s' b').
  destruct e as [|dark]; [exfalso; apply Hno; left; reflexivity|].
  assert (Hstep : localStorage (snd (step (SystemChange dark) s b))
                  = localStorage b).
  { simpl. unfold systemChange.
    apply (handleChange_outcome dark s
             (mkBrowser (localStorage b) dark (documentElement b) (calls b))). }
  destruct (step (SystemChange dark) s b) as [s' b']. simpl in Hstep.
  rewrite <- Hstep. apply IH. intros Hin. apply Hno. right. exact Hin.
Qed.

(** Only a click writes the storage: a page load followed by any number
    of system colour scheme changes leaves the storage exactly as it
    was, whatever it held. *)
Theorem session_without_toggle_keeps_storage (evs : list event) (b : Browser) :
  ~ In Toggle evs -> localStorage (snd (session evs b)) = localStorage b.
Proof.
  intros Hno.
  change (session evs b)
    with (let '(s, b') := initialize initialState b in run evs s b').
  destruct (initialize_outcome initialState b) as (_ & _ & Hinit).
  destruct (initialize initialState b) as [s b']. simpl in Hinit.
  rewrite <- Hinit. apply run_without_toggle_storage, Hno.
Qed.

Lemma session_without_toggle_keeps_storage_witness :
  localStorage (snd (session [SystemChange true; SystemChange false]
                       (mkBrowser ∅ false ∅ []))) = ∅.
Proof.
  apply (session_without_toggle_keeps_storage
           [SystemChange true; SystemChange false] (mkBrowser ∅ false ∅ [])).
  intros [H | [H | []]]; discriminate H.
Defined.

Lemma systemChanges_app (l1 l2 : list bool) (s : State) (b : Browser) :
  systemChanges (l1 ++ l2) s b =
  systemChanges l2 (fst (systemChanges l1 s b)) (snd (systemChanges l1 s b)).
Proof.
  revert s b. induction l1 as [|d l1 IH]; intros s b; [reflexivity|].
  change (systemChanges ((d :: l1) ++ l2) s b)
    with (let '(s', b') := systemChange d s b in systemChanges (l1 ++ l2) s' b').
  change (systemChanges (d :: l1) s b)
    with (let '(s', b') := systemChange d s b in systemChanges l1 s' b').
  destruct (systemChange d s b) as [s' b']. apply IH.
Qed.

Lemma systemChanges_storage (signals : list bool) (s : State) (b : Browser) :
  localStorage (snd (systemChanges signals s b)) = localStorage b.
Proof.
  revert s b. induction signals as [|d l IH]; intros s b; [reflexivity|].
  change (systemChanges (d :: l) s b)
    with (let '(s', b') := systemChange d s b in systemChanges l s' b').
  assert (Hstep : localStorage (snd (systemChange d s b)) = localStorage b).
  { unfold systemChange.
    apply (handleChange_outcome d s
             (mkBrowser (localStorage b) d (documentElement b) (calls b))). }
  destruct (systemChange d s b) as [s' b']. simpl in Hstep.
  rewrite <- Hstep. apply IH.
Qed.

Lemma systemChanges_single (dark : bool) (s : State) (b : Browser) :
  systemChanges [dark] s b = systemChange dark s b.
Proof.
  unfold systemChanges, mbind, IO_bind, mret, IO_ret.
  destruct (systemChange dark s b). reflexivity.
Qed.

(** While nothing is stored, the theme follows the system: after any
    sequence of system changes the theme and the root attribute are those
    of the last change, and still nothing is stored. *)
Theorem systemChanges_follow_last (signals : list bool) (dark : bool)
        (s : State) (b : Browser) :
  localStorage b !! THEME_KEY = None ->
  theme (fst (systemChanges (signals ++ [dark]) s b))
    = (if dark then str "dark" else str "light") /\
  documentElement (snd (systemChanges (signals ++ [dark]) s b)) !! DATA_THEME
    = Some (if dark then str "dark" else str "light") /\
  localStorage (snd (systemChanges (signals ++ [dark]) s b)) !! THEME_KEY = None.
Proof.
  intros Hnone. rewrite systemChanges_app, systemChanges_single.
  pose proof (systemChanges_storage signals s b) as Hst.
  destruct (systemChanges signals s b) as [s1 b1]. cbn [fst snd] in *.
  unfold systemChange.
  rewrite handleChange_absent by (simpl; rewrite Hst; exact Hnone).
  simpl. rewrite lookup_insert_eq, Hst. repeat split. exact Hnone.
Qed.

Lemma systemChanges_follow_last_witness :
  (theme (fst (systemChanges ([true; true] ++ [false])
                 (mkState (str "dark") true) (mkBrowser ∅ true ∅ [])))
     = str "light" /\
   documentElement (snd (systemChanges ([true; true] ++ [false])
                           (mkState (str "dark") true) (mkBrowser ∅ true ∅ [])))
     !! str "data-theme" = Some (str "light")) /\
  (theme (fst (systemChanges ([true; false] ++ [true]) initialState
                 (mkBrowser ∅ false ∅ []))) = str "dark" /\
   documentElement (snd (systemChanges ([true; false] ++ [true]) initialState
                           (mkBrowser ∅ false ∅ [])))
     !! str "data-theme" = Some (str "dark")).
Proof.
  assert (Hnone : forall dark,
             localStorage (mkBrowser ∅ dark ∅ []) !! THEME_KEY = None).
  { intros dark. apply lookup_empty. }
  split.
  - destruct (systemChanges_follow_last [true; true] false
                (mkState (str "dark") true) (mkBrowser ∅ true ∅ [])
                (Hnone true)) as (Ht & Hd & _).
    split; assumption.
  - destruct (systemChanges_follow_last [true; false] true initialState
                (mkBrowser ∅ false ∅ []) (Hnone false)) as (Ht & Hd & _).
    split; assumption.
Defined.

(** The label of the mounted button announces what a click does: it
    names the theme [toggleTheme] switches to. *)
Theorem ariaLabel_announces_toggle (s : State) (b : Browser) :
  mounted s = true ->
  ariaLabel (render s)
    = str "Switch to " ++ theme (fst (toggleTheme s b)) ++ str " mode" /\
  onClick (render s) = true /\
  buttonDisabled (render s) = false.
Proof.
  intros Hm. unfold render. rewrite Hm. simpl.
  unfold toggleTheme, mbind, IO_bind, setItem, setAttribute, record, mret, IO_ret.
  simpl. repeat split.
Qed.

Lemma ariaLabel_announces_toggle_witness :
  ariaLabel (render (mkState (str "light") true)) = str "Switch to dark mode".
Proof.
  destruct (ariaLabel_announces_toggle (mkState (str "light") true)
              (mkBrowser ∅ false ∅ []) eq_refl) as (Hl & _).
  rewrite Hl. vm_compute. reflexivity.
Defined.

Lemma initialize_empty (s : State) (b : Browser) :
  localStorage b !! THEME_KEY = Some [] ->
  initialize s b =
  (mkState (themeOf (prefersDark b)) true,
   mkBrowser (localStorage b) (prefersDark b)
             (<[DATA_THEME := themeOf (prefersDark b)]> (documentElement b))
             (calls b ++ [GetItem THEME_KEY; Matches DARK_QUERY;
                          SetAttribute DATA_THEME (themeOf (prefersDark b))])).
Proof.
  intros Hv. unfold initialize, mbind, IO_bind, getItem. rewrite Hv.
  unfold matches, setAttribute, record, mret, IO_ret. simpl.
  rewrite <- !app_assoc. reflexivity.
Qed.

(** The stored value is not checked. Any non-empty string, a theme name
    or not, becomes the theme and the root attribute without a look at
    the system preference; if it is not a theme name the button shows
    neither icon. An empty string is handled as if nothing were stored. *)
Theorem initialize_unchecked (s : State) (b : Browser) (v : jsstring) :
  localStorage b !! THEME_KEY = Some v ->
  (truthy v = true ->
     theme (fst (initialize s b)) = v /\
     documentElement (snd (initialize s b)) !! DATA_THEME = Some v /\
     issued b (snd (initialize s b))
       = [GetItem THEME_KEY; SetAttribute DATA_THEME v] /\
     (~ isTheme v ->
        sunVisible (render (fst (initialize s b))) = false /\
        moonVisible (render (fst (initialize s b))) = false)) /\
  (v = [] ->
     theme (fst (initialize s b)) = themeOf (prefersDark b) /\
     issued b (snd (initialize s b))
       = [GetItem THEME_KEY; Matches DARK_QUERY;
          SetAttribute DATA_THEME (themeOf (prefersDark b))]).
Proof.
  intros Hv. split.
  - intros Ht. rewrite (initialize_saved s b v Hv Ht).
    cbn [fst snd]. rewrite issued_app.
    cbn [documentElement theme]. rewrite lookup_insert_eq.
    split; [reflexivity|]. split; [reflexivity|]. split; [reflexivity|].
    intros Hnot. unfold render. cbn [mounted negb theme sunVisible moonVisible].
    split; apply bool_decide_eq_false_2; intros Heq; apply Hnot;
      unfold isTheme; auto.
  - intros ->. rewrite (initialize_empty s b Hv).
    simpl fst. simpl snd. rewrite issued_app. split; reflexivity.
Qed.

Lemma initialize_unchecked_witness :
  theme (fst (initialize initialState
                (mkBrowser (<[THEME_KEY := str "blue"]> ∅) true ∅ [])))
    = str "blue" /\
  sunVisible (render (fst (initialize initialState
                (mkBrowser (<[THEME_KEY := str "blue"]> ∅) true ∅ [])))) = false.
Proof.
  assert (Hv : localStorage (mkBrowser (<[THEME_KEY := str "blue"]> ∅) true ∅ [])
                 !! THEME_KEY = Some (str "blue")).
  { vm_compute. reflexivity. }
  destruct (initialize_unchecked initialState _ _ Hv) as (Hsaved & _).
  destruct (Hsaved eq_refl) as (Ht & _ & _ & Hicons).
  split; [exact Ht|]. apply Hicons.
  intros [H | H]; vm_compute in H; discriminate H.
Defined.

End ThemeStorageFacts.
